(** * Tag queries of the database manager: AST, canonical WQL form, encoder
      traversal, legacy adapter, and the placeholder [Key]

    Shallow embedding of
    - [acapy_agent/database_manager/wql_nosql/tags.py]
    - [acapy_agent/database_manager/key.py]

    Python values are modelled as follows.
    - [str] is a [string]; each character stands for one code point below 256.
    - [bytes] is a [list byte].
    - a [dict] is an association list in insertion order.  Every dict built
      by [to_wql_dict] has at most one key, so structural equality of the
      association lists is Python's equality of the dicts.
    - a raised exception is the [Raise] alternative of [result].
    - an encoder is a record of six state-passing functions: whatever an
      encoder object remembers between calls lives in its state. *)

From Stdlib Require Import String Ascii List Bool Arith Lia.
From Stdlib Require Strings.Byte.
Import ListNotations.
Open Scope string_scope.

Set Implicit Arguments.
Set Warnings "-register-all".

(** ** Exceptions and results *)

Inductive PyExn : Type :=
| ValueError (msg : string)
| TypeError (msg : string)
| NotImplementedError (msg : string).

Inductive result (A : Type) : Type :=
| Ok (a : A)
| Raise (e : PyExn).

Arguments Ok {A} a.
Arguments Raise {A} e.

Definition bytes : Type := list Byte.byte.

(** [b"..."] literals. *)
Definition b (s : string) : bytes := list_byte_of_string s.

(** A list comprehension [[f(x) for x in l]] whose body may raise: elements
    are evaluated left to right and the first exception ends the loop. *)
Definition comprehension {A B : Type} (f : A -> result B)
  : list A -> result (list B) :=
  fix each (l : list A) : result (list B) :=
    match l with
    | [] => Ok []
    | x :: l' =>
        match f x with
        | Raise e => Raise e
        | Ok y =>
            match each l' with
            | Raise e => Raise e
            | Ok ys => Ok (y :: ys)
            end
        end
    end.

(** Truthiness of a [str]: only the empty string is falsy. *)
Definition str_truthy (s : string) : bool :=
  match s with
  | EmptyString => false
  | String _ _ => true
  end.

(** ** [TagName] *)

Module TagName.

Record t : Type := mk { value : string }.

Definition to_string (self : t) : string := value self.

(** [__eq__] *)
Definition eqb (self other : t) : bool := String.eqb (value self) (value other).

End TagName.

(** ** [CompareOp] and [ConjunctionOp] *)

Module CompareOp.

Inductive t : Type := Eq | Neq | Gt | Gte | Lt | Lte | Like.

Definition as_sql_str (self : t) : string :=
  match self with
  | Eq => "="
  | Neq => "!="
  | Gt => ">"
  | Gte => ">="
  | Lt => "<"
  | Lte => "<="
  | Like => "LIKE"
  end.

(** Equality of two members. *)
Definition eqb (self other : t) : bool :=
  match self, other with
  | Eq, Eq | Neq, Neq | Gt, Gt | Gte, Gte | Lt, Lt | Lte, Lte | Like, Like => true
  | _, _ => false
  end.

Definition as_sql_str_for_prefix (self : t) : option string :=
  if existsb (eqb self) [Eq; Neq; Gt; Gte; Lt; Lte] then Some (as_sql_str self)
  else None.

End CompareOp.

Module ConjunctionOp.

Inductive t : Type := And | Or.

Definition as_sql_str (self : t) : string :=
  match self with
  | And => " AND "
  | Or => " OR "
  end.

Definition negate (self : t) : t :=
  match self with
  | And => Or
  | Or => And
  end.

End ConjunctionOp.

(** ** JSON-able Python values and [json.dumps] *)

Inductive PyVal : Type :=
| PStr (s : string)
| PList (items : list PyVal)
| PDict (items : list (string * PyVal)).

Module json.

Definition dquote : ascii := "034"%char.
Definition backslash : ascii := "\"%char.

Definition hex_digit (n : nat) : ascii :=
  match n with
  | 0 => "0" | 1 => "1" | 2 => "2" | 3 => "3" | 4 => "4" | 5 => "5"
  | 6 => "6" | 7 => "7" | 8 => "8" | 9 => "9" | 10 => "a" | 11 => "b"
  | 12 => "c" | 13 => "d" | 14 => "e" | _ => "f"
  end%char.

(** One character of a string under [ensure_ascii=True]: the quote and the
    backslash are escaped, the five named control characters get their
    short form, everything else outside [' '..'~'] becomes [\u00xx]. *)
Definition escape_char (c : ascii) : string :=
  let n := nat_of_ascii c in
  if Ascii.eqb c dquote then String backslash (String dquote EmptyString)
  else if Ascii.eqb c backslash then String backslash (String backslash EmptyString)
  else if Nat.eqb n 8 then "\b"
  else if Nat.eqb n 9 then "\t"
  else if Nat.eqb n 10 then "\n"
  else if Nat.eqb n 12 then "\f"
  else if Nat.eqb n 13 then "\r"
  else if Nat.ltb n 32 || Nat.ltb 126 n then
    "\u00" ++ String (hex_digit (n / 16)) (String (hex_digit (n mod 16)) EmptyString)
  else String c EmptyString.

Fixpoint escape (s : string) : string :=
  match s with
  | EmptyString => EmptyString
  | String c s' => escape_char c ++ escape s'
  end.

Definition dumps_str (s : string) : string :=
  String dquote (escape s ++ String dquote EmptyString).

(** [", ".join(parts)] *)
Fixpoint join (sep : string) (parts : list string) : string :=
  match parts with
  | [] => EmptyString
  | [p] => p
  | p :: rest => p ++ sep ++ join sep rest
  end.

(** [json.dumps] with its default separators [", "] and [": "]. *)
Fixpoint dumps (v : PyVal) : string :=
  match v with
  | PStr s => dumps_str s
  | PList items => "[" ++ join ", " (map dumps items) ++ "]"
  | PDict items =>
      "{" ++ join ", "
               (map (fun kv : string * PyVal =>
                       dumps_str (fst kv) ++ ": " ++ dumps (snd kv)) items)
          ++ "}"
  end.

End json.

(** ** [TagQuery] *)

Module TagQuery.

(** A node is a variant tag (a [str]) and a payload.  The payload shapes
    are the ones the factories build: the tuple [(name, value)], the tuple
    [(name, values)], a list of names, a list of subqueries, one subquery. *)
Inductive t : Type :=
| mk (variant : string) (data : payload)
with payload : Type :=
| PairData (name : TagName.t) (value : string)
| PairListData (name : TagName.t) (values : list string)
| NamesData (names : list TagName.t)
| ListData (subqueries : list t)
| QueryData (subquery : t).

Definition variant (self : t) : string := let (v, _) := self in v.
Definition data (self : t) : payload := let (_, d) := self in d.

(** *** Factories *)

Definition Eq (name : TagName.t) (value : string) : t := mk "Eq" (PairData name value).
Definition Neq (name : TagName.t) (value : string) : t := mk "Neq" (PairData name value).
Definition Gt (name : TagName.t) (value : string) : t := mk "Gt" (PairData name value).
Definition Gte (name : TagName.t) (value : string) : t := mk "Gte" (PairData name value).
Definition Lt (name : TagName.t) (value : string) : t := mk "Lt" (PairData name value).
Definition Lte (name : TagName.t) (value : string) : t := mk "Lte" (PairData name value).
Definition Like (name : TagName.t) (value : string) : t := mk "Like" (PairData name value).
Definition In (name : TagName.t) (values : list string) : t := mk "In" (PairListData name values).
Definition Exist (names : list TagName.t) : t := mk "Exist" (NamesData names).
Definition And (subqueries : list t) : t := mk "And" (ListData subqueries).
Definition Or (subqueries : list t) : t := mk "Or" (ListData subqueries).
Definition Not (subquery : t) : t := mk "Not" (QueryData subquery).

(** A payload whose shape does not fit the tag cannot come out of the
    annotated factories.  What Python does with one depends on duck typing
    (unpacking fails, or an attribute is missing); the model stops with
    this [TypeError]. *)
Definition bad_payload {A : Type} : result A :=
  Raise (TypeError "payload does not fit the variant").

Definition unknown_variant_msg (variant : string) : string :=
  "Unknown query variant: " ++ variant.

(** [{name.to_string(): {"$<op>": value}}] *)
Definition op_dict (name : TagName.t) (token : string) (v : PyVal) : PyVal :=
  PDict [(TagName.to_string name, PDict [(token, v)])].

Definition is_empty {A : Type} (l : list A) : bool :=
  match l with [] => true | _ :: _ => false end.

Fixpoint to_wql_dict (self : t) : result PyVal :=
  let (variant, data) := self in
  if variant =? "Eq" then
    match data with
    | PairData name value => Ok (PDict [(TagName.to_string name, PStr value)])
    | _ => bad_payload
    end
  else if variant =? "Neq" then
    match data with
    | PairData name value => Ok (op_dict name "$neq" (PStr value))
    | _ => bad_payload
    end
  else if variant =? "Gt" then
    match data with
    | PairData name value => Ok (op_dict name "$gt" (PStr value))
    | _ => bad_payload
    end
  else if variant =? "Gte" then
    match data with
    | PairData name value => Ok (op_dict name "$gte" (PStr value))
    | _ => bad_payload
    end
  else if variant =? "Lt" then
    match data with
    | PairData name value => Ok (op_dict name "$lt" (PStr value))
    | _ => bad_payload
    end
  else if variant =? "Lte" then
    match data with
    | PairData name value => Ok (op_dict name "$lte" (PStr value))
    | _ => bad_payload
    end
  else if variant =? "Like" then
    match data with
    | PairData name value => Ok (op_dict name "$like" (PStr value))
    | _ => bad_payload
    end
  else if variant =? "In" then
    match data with
    | PairListData name values => Ok (op_dict name "$in" (PList (map PStr values)))
    | _ => bad_payload
    end
  else if variant =? "Exist" then
    match data with
    | NamesData names =>
        Ok (PDict [("$exist", PList (map (fun name => PStr (TagName.to_string name)) names))])
    | _ => bad_payload
    end
  else if variant =? "And" then
    match data with
    | ListData subqueries =>
        if is_empty subqueries then Ok (PDict [])
        else
          match comprehension to_wql_dict subqueries with
          | Raise e => Raise e
          | Ok ds => Ok (PDict [("$and", PList ds)])
          end
    | _ => bad_payload
    end
  else if variant =? "Or" then
    match data with
    | ListData subqueries =>
        if is_empty subqueries then Ok (PDict [])
        else
          match comprehension to_wql_dict subqueries with
          | Raise e => Raise e
          | Ok ds => Ok (PDict [("$or", PList ds)])
          end
    | _ => bad_payload
    end
  else if variant =? "Not" then
    match data with
    | QueryData subquery =>
        match to_wql_dict subquery with
        | Raise e => Raise e
        | Ok d => Ok (PDict [("$not", d)])
        end
    | _ => bad_payload
    end
  else Raise (ValueError (unknown_variant_msg variant)).

Definition to_wql_str (self : t) : result string :=
  match to_wql_dict self with
  | Raise e => Raise e
  | Ok d => Ok (json.dumps d)
  end.

End TagQuery.

(** ** The encoder contract and its traversal *)

(** Computations of an encoder with state [S]: they end with a value or an
    exception, and the state reached so far survives an exception. *)
Definition M (S A : Type) : Type := S -> result A * S.

Definition ret {S A : Type} (a : A) : M S A := fun s => (Ok a, s).

Definition raise {S A : Type} (e : PyExn) : M S A := fun s => (Raise e, s).

Definition bind {S A B : Type} (m : M S A) (k : A -> M S B) : M S B :=
  fun s =>
    match m s with
    | (Ok a, s') => k a s'
    | (Raise e, s') => (Raise e, s')
    end.

(** A call of a primitive, which always returns. *)
Definition call {S A : Type} (f : S -> A * S) : M S A :=
  fun s => let (a, s') := f s in (Ok a, s').

Declare Scope py_scope.
Delimit Scope py_scope with py.
Notation "x <- m ;; k" := (bind m (fun x => k))
  (at level 61, m at next level, right associativity) : py_scope.

(** [[f(x) for x in l]] in [M]. *)
Definition for_each {S A B : Type} (f : A -> M S B) : list A -> M S (list B) :=
  fix each (l : list A) : M S (list B) :=
    match l with
    | [] => ret []
    | x :: l' => (y <- f x ;; ys <- each l' ;; ret (y :: ys))%py
    end.

(** Truthiness of an optional clause: [None] and the empty string are falsy. *)
Definition truthy (c : option string) : bool :=
  match c with
  | None => false
  | Some s => str_truthy s
  end.

(** [[c for c in clauses if c]] *)
Fixpoint keep_truthy (clauses : list (option string)) : list string :=
  match clauses with
  | [] => []
  | Some c :: rest => if str_truthy c then c :: keep_truthy rest else keep_truthy rest
  | None :: rest => keep_truthy rest
  end.

Module TagQueryEncoder.

(** The six abstract methods, as the annotations type them. *)
Record t (S : Type) : Type := {
  encode_name : TagName.t -> S -> bytes * S;
  encode_value : string -> S -> bytes * S;
  encode_op_clause : CompareOp.t -> bytes -> bytes -> bool -> S -> string * S;
  encode_in_clause : bytes -> list bytes -> bool -> S -> string * S;
  encode_exist_clause : bytes -> bool -> S -> string * S;
  encode_conj_clause : ConjunctionOp.t -> list string -> S -> string * S
}.

Section Traversal.

Variable S : Type.
Variable self : t S.

Local Open Scope py_scope.

Definition encode_op (op : CompareOp.t) (name : TagName.t) (value : string)
           (negate : bool) : M S (option string) :=
  enc_name <- call (encode_name self name) ;;
  enc_value <- call (encode_value self value) ;;
  clause <- call (encode_op_clause self op enc_name enc_value negate) ;;
  ret (Some clause).

Definition encode_in (name : TagName.t) (values : list string)
           (negate : bool) : M S (option string) :=
  enc_name <- call (encode_name self name) ;;
  enc_values <- for_each (fun v => call (encode_value self v)) values ;;
  clause <- call (encode_in_clause self enc_name enc_values negate) ;;
  ret (Some clause).

(** The [len(names) == 1] branch of [encode_exist]. *)
Definition encode_exist_single (name : TagName.t) (negate : bool)
  : M S (option string) :=
  enc_name <- call (encode_name self name) ;;
  clause <- call (encode_exist_clause self enc_name negate) ;;
  ret (Some clause).

(** In the last branch the source calls [self.encode_exist([name], negate)]
    for each name; such a call takes the [len(names) == 1] branch, which
    is written here in its place. *)
Definition encode_exist (names : list TagName.t) (negate : bool)
  : M S (option string) :=
  match names with
  | [] => ret None
  | [name] => encode_exist_single name negate
  | _ =>
      clauses <- for_each (fun name => encode_exist_single name negate) names ;;
      clause <- call (encode_conj_clause self ConjunctionOp.And (keep_truthy clauses)) ;;
      ret (Some clause)
  end.

(** The [for] loop of [encode_conj], with the list [clauses] it appends to. *)
Definition encode_conj_loop (encode_query : TagQuery.t -> bool -> M S (option string))
           (negate : bool) : list TagQuery.t -> list string -> M S (list string) :=
  fix loop (subqueries : list TagQuery.t) (clauses : list string) : M S (list string) :=
    match subqueries with
    | [] => ret clauses
    | q :: rest =>
        clause <- encode_query q negate ;;
        match clause with
        | Some c => loop rest (clauses ++ [c])%list
        | None => loop rest clauses
        end
    end.

Definition encode_conj (encode_query : TagQuery.t -> bool -> M S (option string))
           (op : ConjunctionOp.t) (subqueries : list TagQuery.t) (negate : bool)
  : M S (option string) :=
  let op := if negate then ConjunctionOp.negate op else op in
  clauses <- encode_conj_loop encode_query negate subqueries [] ;;
  clause <- call (encode_conj_clause self op clauses) ;;
  ret (Some clause).

Fixpoint encode_query (query : TagQuery.t) (negate : bool) {struct query}
  : M S (option string) :=
  let (variant, data) := query in
  if variant =? "Eq" then
    match data with
    | TagQuery.PairData name value => encode_op CompareOp.Eq name value negate
    | _ => raise (TypeError "payload does not fit the variant")
    end
  else if variant =? "Neq" then
    match data with
    | TagQuery.PairData name value => encode_op CompareOp.Neq name value negate
    | _ => raise (TypeError "payload does not fit the variant")
    end
  else if variant =? "Gt" then
    match data with
    | TagQuery.PairData name value => encode_op CompareOp.Gt name value negate
    | _ => raise (TypeError "payload does not fit the variant")
    end
  else if variant =? "Gte" then
    match data with
    | TagQuery.PairData name value => encode_op CompareOp.Gte name value negate
    | _ => raise (TypeError "payload does not fit the variant")
    end
  else if variant =? "Lt" then
    match data with
    | TagQuery.PairData name value => encode_op CompareOp.Lt name value negate
    | _ => raise (TypeError "payload does not fit the variant")
    end
  else if variant =? "Lte" then
    match data with
    | TagQuery.PairData name value => encode_op CompareOp.Lte name value negate
    | _ => raise (TypeError "payload does not fit the variant")
    end
  else if variant =? "Like" then
    match data with
    | TagQuery.PairData name value => encode_op CompareOp.Like name value negate
    | _ => raise (TypeError "payload does not fit the variant")
    end
  else if variant =? "In" then
    match data with
    | TagQuery.PairListData name values => encode_in name values negate
    | _ => raise (TypeError "payload does not fit the variant")
    end
  else if variant =? "Exist" then
    match data with
    | TagQuery.NamesData names => encode_exist names negate
    | _ => raise (TypeError "payload does not fit the variant")
    end
  else if (variant =? "And") || (variant =? "Or") then
    let op := if variant =? "And" then ConjunctionOp.And else ConjunctionOp.Or in
    match data with
    | TagQuery.ListData subqueries => encode_conj encode_query op subqueries negate
    | _ => raise (TypeError "payload does not fit the variant")
    end
  else if variant =? "Not" then
    match data with
    | TagQuery.QueryData subquery => encode_query subquery (negb negate)
    | _ => raise (TypeError "payload does not fit the variant")
    end
  else raise (ValueError "Unknown query variant").

End Traversal.

End TagQueryEncoder.

(** ** A recording encoder

    The calls an encoder receives, with their arguments.  [recording e] is the
    encoder [e] with a log beside its state: every primitive appends its call
    to the log and then behaves as [e] does. *)

Inductive Call : Type :=
| CallName (name : TagName.t)
| CallValue (value : string)
| CallOpClause (op : CompareOp.t) (enc_name enc_value : bytes) (negate : bool)
| CallInClause (enc_name : bytes) (enc_values : list bytes) (negate : bool)
| CallExistClause (enc_name : bytes) (negate : bool)
| CallConjClause (op : ConjunctionOp.t) (clauses : list string).

Definition logged {S A : Type} (c : Call) (f : S -> A * S)
  : S * list Call -> A * (S * list Call) :=
  fun st => let (a, s') := f (fst st) in (a, (s', (snd st ++ [c])%list)).

Definition recording {S : Type} (e : TagQueryEncoder.t S)
  : TagQueryEncoder.t (S * list Call) :=
  {| TagQueryEncoder.encode_name := fun name =>
       logged (CallName name) (TagQueryEncoder.encode_name e name);
     TagQueryEncoder.encode_value := fun value =>
       logged (CallValue value) (TagQueryEncoder.encode_value e value);
     TagQueryEncoder.encode_op_clause := fun op enc_name enc_value negate =>
       logged (CallOpClause op enc_name enc_value negate)
              (TagQueryEncoder.encode_op_clause e op enc_name enc_value negate);
     TagQueryEncoder.encode_in_clause := fun enc_name enc_values negate =>
       logged (CallInClause enc_name enc_values negate)
              (TagQueryEncoder.encode_in_clause e enc_name enc_values negate);
     TagQueryEncoder.encode_exist_clause := fun enc_name negate =>
       logged (CallExistClause enc_name negate)
              (TagQueryEncoder.encode_exist_clause e enc_name negate);
     TagQueryEncoder.encode_conj_clause := fun op clauses =>
       logged (CallConjClause op clauses)
              (TagQueryEncoder.encode_conj_clause e op clauses) |}.

(** A test encoder without state of its own: names and values are encoded as
    their bytes, comparisons render as [name op value], negation as
    [NOT(...)], conjunctions as the parenthesised clauses joined by the
    operator. *)
Module TestEncoder.

Definition text (x : bytes) : string := string_of_list_byte x.

Definition negated (negate : bool) (clause : string) : string :=
  if negate then "NOT(" ++ clause ++ ")" else clause.

Definition enc : TagQueryEncoder.t unit :=
  {| TagQueryEncoder.encode_name := fun name s => (b (TagName.to_string name), s);
     TagQueryEncoder.encode_value := fun value s => (b value, s);
     TagQueryEncoder.encode_op_clause := fun op enc_name enc_value negate s =>
       (negated negate (text enc_name ++ " " ++ CompareOp.as_sql_str op ++ " " ++ text enc_value), s);
     TagQueryEncoder.encode_in_clause := fun enc_name enc_values negate s =>
       (negated negate (text enc_name ++ " IN (" ++ json.join ", " (map text enc_values) ++ ")"), s);
     TagQueryEncoder.encode_exist_clause := fun enc_name negate s =>
       (negated negate (text enc_name ++ " IS NOT NULL"), s);
     TagQueryEncoder.encode_conj_clause := fun op clauses s =>
       ("(" ++ json.join (ConjunctionOp.as_sql_str op) clauses ++ ")", s) |}.

End TestEncoder.

(** ** The legacy adapter *)

Module Query.

(** Modelled from the spec: the legacy node classes imported from
    [query.py], whose source is not at hand.  The adapter reads the fields
    [subqueries], [subquery], [key], [value], [values] and [keys]; [Other]
    stands for an object of any other class. *)
Inductive t : Type :=
| AndQuery (subqueries : list t)
| OrQuery (subqueries : list t)
| NotQuery (subquery : t)
| EqQuery (key value : string)
| NeqQuery (key value : string)
| GtQuery (key value : string)
| GteQuery (key value : string)
| LtQuery (key value : string)
| LteQuery (key value : string)
| LikeQuery (key value : string)
| InQuery (key : string) (values : list string)
| ExistQuery (keys : list string)
| Other (type_name : string).

End Query.

(** [c in chars] *)
Fixpoint char_in (c : ascii) (chars : string) : bool :=
  match chars with
  | EmptyString => false
  | String c' rest => Ascii.eqb c c' || char_in c rest
  end.

(** [s.lstrip(chars)]: the leading characters of [s] that occur in [chars]
    are removed, however many there are. *)
Fixpoint lstrip (s chars : string) : string :=
  match s with
  | EmptyString => EmptyString
  | String c s' => if char_in c chars then lstrip s' chars else s
  end.

Fixpoint query_to_tagquery (q : Query.t) : result TagQuery.t :=
  match q with
  | Query.AndQuery subqueries =>
      match comprehension query_to_tagquery subqueries with
      | Raise e => Raise e
      | Ok sqs => Ok (TagQuery.And sqs)
      end
  | Query.OrQuery subqueries =>
      match comprehension query_to_tagquery subqueries with
      | Raise e => Raise e
      | Ok sqs => Ok (TagQuery.Or sqs)
      end
  | Query.NotQuery subquery =>
      match query_to_tagquery subquery with
      | Raise e => Raise e
      | Ok sq => Ok (TagQuery.Not sq)
      end
  | Query.EqQuery key value =>
      let key := lstrip key "~" in
      let tag_name := TagName.mk key in
      Ok (TagQuery.Eq tag_name value)
  | Query.NeqQuery key value =>
      let key := lstrip key "~" in
      let tag_name := TagName.mk key in
      Ok (TagQuery.Neq tag_name value)
  | Query.GtQuery key value =>
      let key := lstrip key "~" in
      let tag_name := TagName.mk key in
      Ok (TagQuery.Gt tag_name value)
  | Query.GteQuery key value =>
      let key := lstrip key "~" in
      let tag_name := TagName.mk key in
      Ok (TagQuery.Gte tag_name value)
  | Query.LtQuery key value =>
      let key := lstrip key "~" in
      let tag_name := TagName.mk key in
      Ok (TagQuery.Lt tag_name value)
  | Query.LteQuery key value =>
      let key := lstrip key "~" in
      let tag_name := TagName.mk key in
      Ok (TagQuery.Lte tag_name value)
  | Query.LikeQuery key value =>
      let key := lstrip key "~" in
      let tag_name := TagName.mk key in
      Ok (TagQuery.Like tag_name value)
  | Query.InQuery key values =>
      let key := lstrip key "~" in
      let tag_name := TagName.mk key in
      Ok (TagQuery.In tag_name values)
  | Query.ExistQuery keys =>
      let tag_names := map (fun k => TagName.mk (lstrip k "~")) keys in
      Ok (TagQuery.Exist tag_names)
  | Query.Other type_name =>
      Raise (ValueError ("Unknown query type: " ++ type_name))
  end.

(** ** The placeholder [Key] *)

Module Key.

Section Bindings.

(** [db_types.KeyAlg] and [db_types.SeedMethod] are enums declared outside
    the two modules at hand; only the member [A128GCM] is used. *)
Variable KeyAlg : Type.
Variable SeedMethod : Type.
Variable A128GCM : KeyAlg.

(** A value of type [Any]: the handle of a key. *)
Inductive any : Type :=
| AnyNone
| AnyStr (s : string)
| AnyBytes (x : bytes)
| AnyObject (id : nat).

(** [Union[str, bytes]] *)
Definition text : Type := (string + bytes)%type.
(** [Union[str, KeyAlg]] *)
Definition alg_arg : Type := (string + KeyAlg)%type.
(** [Union[dict, str, bytes]] *)
Definition jwk_arg : Type := (PyVal + (string + bytes))%type.

Record t : Type := mk { _handle : any }.

Definition generate (alg : alg_arg) (ephemeral : bool) : result t :=
  Raise (NotImplementedError "Key generation is not available without bindings.").

Definition from_seed (alg : alg_arg) (seed : text)
           (method : option (string + SeedMethod)) : result t :=
  Raise (NotImplementedError "Key creation from seed is not available without bindings.").

Definition from_secret_bytes (alg : alg_arg) (secret : bytes) : result t :=
  Raise (NotImplementedError "Key creation from secret bytes is not available without bindings.").

Definition from_public_bytes (alg : alg_arg) (public : bytes) : result t :=
  Raise (NotImplementedError "Key creation from public bytes is not available without bindings.").

Definition from_jwk (jwk : jwk_arg) : result t :=
  Raise (NotImplementedError "Key creation from JWK is not available without bindings.").

Definition handle (self : t) : result any := Ok (_handle self).

Definition algorithm (self : t) : result KeyAlg := Ok A128GCM.

Definition ephemeral (self : t) : result bool := Ok false.

Definition convert_key (self : t) (alg : alg_arg) : result t :=
  Raise (NotImplementedError "Key conversion is not available without bindings.").

Definition key_exchange (self : t) (alg : alg_arg) (pk : t) : result t :=
  Raise (NotImplementedError "Key exchange is not available without bindings.").

Definition get_public_bytes (self : t) : result bytes :=
  Ok (b "public_bytes_placeholder").

Definition get_secret_bytes (self : t) : result bytes :=
  Ok (b "secret_bytes_placeholder").

Definition get_jwk_public (self : t) (alg : option alg_arg) : result string :=
  Ok "jwk_public_placeholder".

Definition get_jwk_secret (self : t) : result bytes :=
  Ok (b "jwk_secret_placeholder").

Definition get_jwk_thumbprint (self : t) (alg : option alg_arg) : result string :=
  Ok "jwk_thumbprint_placeholder".

Definition aead_params (self : t) : result string := Ok "AeadParams placeholder".

Definition aead_random_nonce (self : t) : result bytes := Ok (b "nonce_placeholder").

Definition aead_encrypt (self : t) (message : text)
           (nonce aad : option bytes) : result string :=
  Ok "Encrypted placeholder".

Definition aead_decrypt (self : t) (ciphertext : bytes) (nonce : bytes)
           (tag aad : option bytes) : result bytes :=
  Ok (b "decrypted placeholder").

Definition sign_message (self : t) (message : text)
           (sig_type : option string) : result bytes :=
  Raise (NotImplementedError "Message signing is not available without bindings.").

Definition verify_signature (self : t) (message : text) (signature : bytes)
           (sig_type : option string) : result bool :=
  Raise (NotImplementedError "Signature verification is not available without bindings.").

Definition wrap_key (self other : t) (nonce : option bytes) : result string :=
  Ok "Encrypted placeholder".

Definition unwrap_key (self : t) (alg : alg_arg) (ciphertext : bytes)
           (nonce tag : option bytes) : result t :=
  Ok (mk (AnyStr "placeholder handle")).

End Bindings.

End Key.

(** ** Vocabulary of the statements *)

(** The closed set of variant tags. *)
Definition variants : list string :=
  ["Eq"; "Neq"; "Gt"; "Gte"; "Lt"; "Lte"; "Like"; "In"; "Exist"; "And"; "Or"; "Not"].

Definition known (variant : string) : bool := existsb (String.eqb variant) variants.

(** The factory of each comparison operator and of each conjunction operator. *)
Definition comparison (op : CompareOp.t) : TagName.t -> string -> TagQuery.t :=
  match op with
  | CompareOp.Eq => TagQuery.Eq
  | CompareOp.Neq => TagQuery.Neq
  | CompareOp.Gt => TagQuery.Gt
  | CompareOp.Gte => TagQuery.Gte
  | CompareOp.Lt => TagQuery.Lt
  | CompareOp.Lte => TagQuery.Lte
  | CompareOp.Like => TagQuery.Like
  end.

Definition conjunction (op : ConjunctionOp.t) : list TagQuery.t -> TagQuery.t :=
  match op with
  | ConjunctionOp.And => TagQuery.And
  | ConjunctionOp.Or => TagQuery.Or
  end.

(** [finalOp = negate ? op.negate() : op] *)
Definition final_op (op : ConjunctionOp.t) (negate : bool) : ConjunctionOp.t :=
  if negate then ConjunctionOp.negate op else op.

(** Trees built with the factories alone. *)
Inductive built : TagQuery.t -> Prop :=
| built_Eq name value : built (TagQuery.Eq name value)
| built_Neq name value : built (TagQuery.Neq name value)
| built_Gt name value : built (TagQuery.Gt name value)
| built_Gte name value : built (TagQuery.Gte name value)
| built_Lt name value : built (TagQuery.Lt name value)
| built_Lte name value : built (TagQuery.Lte name value)
| built_Like name value : built (TagQuery.Like name value)
| built_In name values : built (TagQuery.In name values)
| built_Exist names : built (TagQuery.Exist names)
| built_And subqueries : Forall built subqueries -> built (TagQuery.And subqueries)
| built_Or subqueries : Forall built subqueries -> built (TagQuery.Or subqueries)
| built_Not subquery : built subquery -> built (TagQuery.Not subquery).

(** The payload of every node with a tag of the closed set has the shape its
    factory gives it; a node with another tag may carry anything. *)
Fixpoint fits (q : TagQuery.t) : bool :=
  let (variant, data) := q in
  if existsb (String.eqb variant) ["Eq"; "Neq"; "Gt"; "Gte"; "Lt"; "Lte"; "Like"] then
    match data with TagQuery.PairData _ _ => true | _ => false end
  else if variant =? "In" then
    match data with TagQuery.PairListData _ _ => true | _ => false end
  else if variant =? "Exist" then
    match data with TagQuery.NamesData _ => true | _ => false end
  else if (variant =? "And") || (variant =? "Or") then
    match data with TagQuery.ListData subqueries => forallb fits subqueries | _ => false end
  else if variant =? "Not" then
    match data with TagQuery.QueryData subquery => fits subquery | _ => false end
  else true.

(** Every node of the tree carries a tag of the closed set. *)
Fixpoint tags_known (q : TagQuery.t) : bool :=
  let (variant, data) := q in
  known variant &&
  match data with
  | TagQuery.ListData subqueries => forallb tags_known subqueries
  | TagQuery.QueryData subquery => tags_known subquery
  | _ => true
  end.

(** No conjunction of the tree is empty, and no comparison other than [Eq]
    is on the tag name ["$not"]. *)
Fixpoint canonical (q : TagQuery.t) : bool :=
  let (variant, data) := q in
  match data with
  | TagQuery.PairData name _ =>
      (variant =? "Eq") || negb (TagName.to_string name =? "$not")
  | TagQuery.ListData subqueries =>
      negb (TagQuery.is_empty subqueries) && forallb canonical subqueries
  | TagQuery.QueryData subquery => canonical subquery
  | _ => true
  end.

(** [[c for c in clauses if c is not None]] *)
Fixpoint drop_none (clauses : list (option string)) : list string :=
  match clauses with
  | [] => []
  | Some c :: rest => c :: drop_none rest
  | None :: rest => drop_none rest
  end.

(** What encoding each name of an [Exist] on its own asks of an encoder:
    the clauses obtained, the state reached and the calls made, in order. *)
Fixpoint per_name {S : Type} (e : TagQueryEncoder.t S) (names : list TagName.t)
         (negate : bool) (s : S) : list string * S * list Call :=
  match names with
  | [] => ([], s, [])
  | name :: rest =>
      let (enc_name, s1) := TagQueryEncoder.encode_name e name s in
      let (clause, s2) := TagQueryEncoder.encode_exist_clause e enc_name negate s1 in
      let '(clauses, s3, calls) := per_name e rest negate s2 in
      (clause :: clauses, s3,
       CallName name :: CallExistClause enc_name negate :: calls)
  end.

(** The outcome of an [Exist] on two names or more when the conjunction
    primitive is handed the clauses [chosen] picks from the per-name ones. *)
Definition exist_outcome {S : Type} (e : TagQueryEncoder.t S)
           (chosen : list string -> list string)
           (names : list TagName.t) (negate : bool) (s : S) (log : list Call)
  : result (option string) * (S * list Call) :=
  let '(clauses, s1, calls) := per_name e names negate s in
  let (clause, s2) :=
    TagQueryEncoder.encode_conj_clause e ConjunctionOp.And (chosen clauses) s1 in
  (Ok (Some clause),
   (s2, log ++ calls ++ [CallConjClause ConjunctionOp.And (chosen clauses)])%list).

(** The reading of the specification: every per-name clause is combined. *)
Definition every_clause (clauses : list string) : list string := clauses.

(** The source: [[c for c in clauses if c]]. *)
Definition truthy_clauses (clauses : list string) : list string :=
  filter str_truthy clauses.

(** A test encoder whose existence clause is the empty string. *)
Module BlankExist.

Definition enc : TagQueryEncoder.t unit :=
  {| TagQueryEncoder.encode_name := TagQueryEncoder.encode_name TestEncoder.enc;
     TagQueryEncoder.encode_value := TagQueryEncoder.encode_value TestEncoder.enc;
     TagQueryEncoder.encode_op_clause := TagQueryEncoder.encode_op_clause TestEncoder.enc;
     TagQueryEncoder.encode_in_clause := TagQueryEncoder.encode_in_clause TestEncoder.enc;
     TagQueryEncoder.encode_exist_clause := fun enc_name negate s => (EmptyString, s);
     TagQueryEncoder.encode_conj_clause := TagQueryEncoder.encode_conj_clause TestEncoder.enc |}.

End BlankExist.

(** The legacy marker, and the two ways of removing it from a key. *)
Definition marker : ascii := "~"%char.

Fixpoint markers (n : nat) : string :=
  match n with
  | 0 => EmptyString
  | Datatypes.S n' => String marker (markers n')
  end.

Definition starts_with_marker (s : string) : bool :=
  match s with
  | String c _ => Ascii.eqb c marker
  | EmptyString => false
  end.

(** Removal of exactly one leading marker, as the specification words it. *)
Definition strip_one_marker (key : string) : string :=
  match key with
  | String c rest => if Ascii.eqb c marker then rest else key
  | EmptyString => EmptyString
  end.

(** The keys of a legacy tree and the names of a tree, leaf by leaf from left
    to right. *)
Fixpoint legacy_keys (q : Query.t) : list string :=
  match q with
  | Query.AndQuery subqueries | Query.OrQuery subqueries =>
      flat_map legacy_keys subqueries
  | Query.NotQuery subquery => legacy_keys subquery
  | Query.EqQuery key _ | Query.NeqQuery key _ | Query.GtQuery key _
  | Query.GteQuery key _ | Query.LtQuery key _ | Query.LteQuery key _
  | Query.LikeQuery key _ | Query.InQuery key _ => [key]
  | Query.ExistQuery keys => keys
  | Query.Other _ => []
  end.

Fixpoint tag_names (q : TagQuery.t) : list TagName.t :=
  let (_, data) := q in
  match data with
  | TagQuery.PairData name _ | TagQuery.PairListData name _ => [name]
  | TagQuery.NamesData names => names
  | TagQuery.ListData subqueries => flat_map tag_names subqueries
  | TagQuery.QueryData subquery => tag_names subquery
  end.

(** [name] is [key] without its leading markers, all of them. *)
Definition stripped (key : string) (name : TagName.t) : Prop :=
  exists n : nat,
    key = markers n ++ TagName.value name
    /\ starts_with_marker (TagName.value name) = false.

(** Induction on a legacy tree. *)
Section QueryInduction.

Variable P : Query.t -> Prop.
Hypothesis HAnd : forall subqueries, Forall P subqueries -> P (Query.AndQuery subqueries).
Hypothesis HOr : forall subqueries, Forall P subqueries -> P (Query.OrQuery subqueries).
Hypothesis HNot : forall subquery, P subquery -> P (Query.NotQuery subquery).
Hypothesis HEq : forall key value, P (Query.EqQuery key value).
Hypothesis HNeq : forall key value, P (Query.NeqQuery key value).
Hypothesis HGt : forall key value, P (Query.GtQuery key value).
Hypothesis HGte : forall key value, P (Query.GteQuery key value).
Hypothesis HLt : forall key value, P (Query.LtQuery key value).
Hypothesis HLte : forall key value, P (Query.LteQuery key value).
Hypothesis HLike : forall key value, P (Query.LikeQuery key value).
Hypothesis HIn : forall key values, P (Query.InQuery key values).
Hypothesis HExist : forall keys, P (Query.ExistQuery keys).
Hypothesis HOther : forall type_name, P (Query.Other type_name).

Fixpoint query_ind (q : Query.t) : P q :=
  let all :=
    fix all (l : list Query.t) : Forall P l :=
      match l with
      | [] => Forall_nil P
      | x :: l' => Forall_cons x (query_ind x) (all l')
      end in
  match q with
  | Query.AndQuery subqueries => HAnd (all subqueries)
  | Query.OrQuery subqueries => HOr (all subqueries)
  | Query.NotQuery subquery => HNot (query_ind subquery)
  | Query.EqQuery key value => HEq key value
  | Query.NeqQuery key value => HNeq key value
  | Query.GtQuery key value => HGt key value
  | Query.GteQuery key value => HGte key value
  | Query.LtQuery key value => HLt key value
  | Query.LteQuery key value => HLte key value
  | Query.LikeQuery key value => HLike key value
  | Query.InQuery key values => HIn key values
  | Query.ExistQuery keys => HExist keys
  | Query.Other type_name => HOther type_name
  end.

End QueryInduction.

(** A JSON text written with the apostrophe in place of the double quote. *)
Fixpoint quoted (s : string) : string :=
  match s with
  | EmptyString => EmptyString
  | String c s' => String (if Ascii.eqb c "'"%char then json.dquote else c) (quoted s')
  end.

(** Induction on a tree, with the subqueries of a list payload at hand. *)
Section TagQueryInduction.

Variable P : TagQuery.t -> Prop.
Hypothesis HPair : forall variant name value,
    P (TagQuery.mk variant (TagQuery.PairData name value)).
Hypothesis HPairList : forall variant name values,
    P (TagQuery.mk variant (TagQuery.PairListData name values)).
Hypothesis HNames : forall variant names,
    P (TagQuery.mk variant (TagQuery.NamesData names)).
Hypothesis HList : forall variant subqueries,
    Forall P subqueries -> P (TagQuery.mk variant (TagQuery.ListData subqueries)).
Hypothesis HQuery : forall variant subquery,
    P subquery -> P (TagQuery.mk variant (TagQuery.QueryData subquery)).

Fixpoint tagquery_ind (q : TagQuery.t) : P q :=
  match q with
  | TagQuery.mk variant data =>
      match data return P (TagQuery.mk variant data) with
      | TagQuery.PairData name value => HPair variant name value
      | TagQuery.PairListData name values => HPairList variant name values
      | TagQuery.NamesData names => HNames variant names
      | TagQuery.ListData subqueries =>
          HList variant
            ((fix all (l : list TagQuery.t) : Forall P l :=
                match l with
                | [] => Forall_nil P
                | x :: l' => Forall_cons x (tagquery_ind x) (all l')
                end) subqueries)
      | TagQuery.QueryData subquery => HQuery variant (tagquery_ind subquery)
      end
  end.

End TagQueryInduction.

(** ** Vocabulary of the further properties *)

(** [n] negations around a tree. *)
Fixpoint nest_not (n : nat) (q : TagQuery.t) : TagQuery.t :=
  match n with
  | 0 => q
  | Datatypes.S n' => TagQuery.Not (nest_not n' q)
  end.

(** What encoding each value of an [In] asks of an encoder: the encoded
    values, the state reached and the calls made, in order. *)
Fixpoint per_value {S : Type} (e : TagQueryEncoder.t S) (values : list string) (s : S)
  : list bytes * S * list Call :=
  match values with
  | [] => ([], s, [])
  | value :: rest =>
      let (enc_value, s1) := TagQueryEncoder.encode_value e value s in
      let '(enc_values, s2, calls) := per_value e rest s1 in
      (enc_value :: enc_values, s2, CallValue value :: calls)
  end.

(** The calls of [encode_name] and [encode_value] in a log. *)
Definition is_hook (c : Call) : bool :=
  match c with
  | CallName _ | CallValue _ => true
  | _ => false
  end.

Definition hooks (log : list Call) : list Call := filter is_hook log.

(** The names and values of a tree as the hooks meet them: leaf by leaf from
    left to right, the name of a leaf before its values. *)
Fixpoint hook_calls (q : TagQuery.t) : list Call :=
  let (_, data) := q in
  match data with
  | TagQuery.PairData name value => [CallName name; CallValue value]
  | TagQuery.PairListData name values => CallName name :: map CallValue values
  | TagQuery.NamesData names => map CallName names
  | TagQuery.ListData subqueries => flat_map hook_calls subqueries
  | TagQuery.QueryData subquery => hook_calls subquery
  end.


(** The first node of a legacy tree, from left to right, that is of no
    mapped class. *)
Fixpoint first_other (q : Query.t) : option string :=
  let first_of :=
    fix first_of (l : list Query.t) : option string :=
      match l with
      | [] => None
      | x :: l' =>
          match first_other x with
          | Some type_name => Some type_name
          | None => first_of l'
          end
      end in
  match q with
  | Query.AndQuery subqueries | Query.OrQuery subqueries => first_of subqueries
  | Query.NotQuery subquery => first_other subquery
  | Query.Other type_name => Some type_name
  | _ => None
  end.

(** A legacy tree with [n] more markers in front of every key. *)
Fixpoint mark (n : nat) (q : Query.t) : Query.t :=
  match q with
  | Query.AndQuery subqueries => Query.AndQuery (map (mark n) subqueries)
  | Query.OrQuery subqueries => Query.OrQuery (map (mark n) subqueries)
  | Query.NotQuery subquery => Query.NotQuery (mark n subquery)
  | Query.EqQuery key value => Query.EqQuery (markers n ++ key) value
  | Query.NeqQuery key value => Query.NeqQuery (markers n ++ key) value
  | Query.GtQuery key value => Query.GtQuery (markers n ++ key) value
  | Query.GteQuery key value => Query.GteQuery (markers n ++ key) value
  | Query.LtQuery key value => Query.LtQuery (markers n ++ key) value
  | Query.LteQuery key value => Query.LteQuery (markers n ++ key) value
  | Query.LikeQuery key value => Query.LikeQuery (markers n ++ key) value
  | Query.InQuery key values => Query.InQuery (markers n ++ key) values
  | Query.ExistQuery keys => Query.ExistQuery (map (fun key => markers n ++ key) keys)
  | Query.Other type_name => Query.Other type_name
  end.





(** Every dict of a value has one key at most. *)
Fixpoint single_keyed (v : PyVal) : bool :=
  match v with
  | PStr _ => true
  | PList items => forallb single_keyed items
  | PDict items =>
      Nat.leb (length items) 1
      && forallb (fun kv : string * PyVal => single_keyed (snd kv)) items
  end.

(** The outcome of encoding each name on its own and handing every clause
    obtained to the conjunction primitive with the operator [op]. *)
Definition names_outcome {S : Type} (e : TagQueryEncoder.t S) (op : ConjunctionOp.t)
           (names : list TagName.t) (negate : bool) (s : S) (log : list Call)
  : result (option string) * (S * list Call) :=
  let '(clauses, s1, calls) := per_name e names negate s in
  let (clause, s2) := TagQueryEncoder.encode_conj_clause e op clauses s1 in
  (Ok (Some clause), (s2, log ++ calls ++ [CallConjClause op clauses])%list).

(** A call without what the encoder put into it: the encoded names and
    values and the clauses are left out, the operators and the [negate]
    flags are kept. *)
Inductive Step : Type :=
| StepName (name : TagName.t)
| StepValue (value : string)
| StepOpClause (op : CompareOp.t) (negate : bool)
| StepInClause (negate : bool)
| StepExistClause (negate : bool)
| StepConjClause (op : ConjunctionOp.t).

Definition step_of (c : Call) : Step :=
  match c with
  | CallName name => StepName name
  | CallValue value => StepValue value
  | CallOpClause op _ _ negate => StepOpClause op negate
  | CallInClause _ _ negate => StepInClause negate
  | CallExistClause _ negate => StepExistClause negate
  | CallConjClause op _ => StepConjClause op
  end.

(** The comparison operator a variant tag stands for. *)
Definition compare_op_of (variant : string) : option CompareOp.t :=
  if variant =? "Eq" then Some CompareOp.Eq
  else if variant =? "Neq" then Some CompareOp.Neq
  else if variant =? "Gt" then Some CompareOp.Gt
  else if variant =? "Gte" then Some CompareOp.Gte
  else if variant =? "Lt" then Some CompareOp.Lt
  else if variant =? "Lte" then Some CompareOp.Lte
  else if variant =? "Like" then Some CompareOp.Like
  else None.

(** The steps a tree calls for under a given polarity: a [Not] flips the
    polarity of what is below it, an [And] or [Or] asks for its own operator
    or, under negation, for the other one, and an [Exist] on several names
    asks for [And] under either polarity. *)
Fixpoint steps (q : TagQuery.t) (negate : bool) : list Step :=
  let (variant, data) := q in
  match data with
  | TagQuery.PairData name value =>
      match compare_op_of variant with
      | Some op => [StepName name; StepValue value; StepOpClause op negate]
      | None => []
      end
  | TagQuery.PairListData name values =>
      (StepName name :: map StepValue values ++ [StepInClause negate])%list
  | TagQuery.NamesData names =>
      match names with
      | [] => []
      | [name] => [StepName name; StepExistClause negate]
      | _ =>
          (flat_map (fun name => [StepName name; StepExistClause negate]) names
             ++ [StepConjClause ConjunctionOp.And])%list
      end
  | TagQuery.ListData subqueries =>
      (flat_map (fun sq => steps sq negate) subqueries
         ++ [StepConjClause
               (final_op (if variant =? "And" then ConjunctionOp.And
                          else ConjunctionOp.Or) negate)])%list
  | TagQuery.QueryData subquery => steps subquery (negb negate)
  end.

(** * Properties *)

Import TagQueryEncoder.

(** ** Comparisons and negation pushdown *)

(** C1: for all subqueries [A] and [B] and every encoder, in every state,
    encoding [Not(And([A, B]))] with [negate = false] and encoding
    [Or([Not(A), Not(B)])] with [negate = false] end with the same clause (or
    the same exception) in the same encoder state; on a recording encoder
    they therefore log the same calls, with the same arguments, in the same
    order. *)
Theorem de_morgan_not_and (S : Type) (e : TagQueryEncoder.t S)
        (A B : TagQuery.t) (s : S) (log : list Call) :
  encode_query e (TagQuery.Not (TagQuery.And [A; B])) false s
  = encode_query e (TagQuery.Or [TagQuery.Not A; TagQuery.Not B]) false s
  /\
  encode_query (recording e) (TagQuery.Not (TagQuery.And [A; B])) false (s, log)
  = encode_query (recording e) (TagQuery.Or [TagQuery.Not A; TagQuery.Not B]) false (s, log).
Proof.
  split; reflexivity.
Qed.

(** A logged primitive followed by the rest of a computation. *)
Lemma bind_call_logged (S A B : Type) (c : Call) (f : S -> A * S)
      (k : A -> M (S * list Call) B) (s : S) (log : list Call) :
  bind (call (logged c f)) k (s, log)
  = let (a, s') := f s in k a (s', (log ++ [c])%list).
Proof.
  unfold bind, call, logged; cbn. destruct (f s); reflexivity.
Qed.

Lemma encode_query_comparison (S : Type) (e : TagQueryEncoder.t S)
      (op : CompareOp.t) (name : TagName.t) (value : string) (negate : bool) :
  encode_query e (comparison op name value) negate = encode_op e op name value negate.
Proof.
  destruct op; reflexivity.
Qed.

(** C2: for every comparison operator, name, value and [negate] flag,
    encoding the comparison calls [encode_name] once, then [encode_value]
    once, then [encode_op_clause] with the operator of the variant and the
    [negate] flag it was given, and returns the clause of that last call. *)
Theorem comparison_keeps_op_and_negate (S : Type) (e : TagQueryEncoder.t S)
        (op : CompareOp.t) (name : TagName.t) (value : string)
        (negate : bool) (s : S) (log : list Call) :
  encode_query (recording e) (comparison op name value) negate (s, log)
  = let (enc_name, s1) := encode_name e name s in
    let (enc_value, s2) := encode_value e value s1 in
    let (clause, s3) := encode_op_clause e op enc_name enc_value negate s2 in
    (Ok (Some clause),
     (s3, log ++ [CallName name; CallValue value;
                  CallOpClause op enc_name enc_value negate])%list).
Proof.
  rewrite encode_query_comparison. unfold encode_op.
  cbn [recording encode_name encode_value encode_op_clause].
  rewrite bind_call_logged. destruct (encode_name e name s) as [enc_name s1].
  rewrite bind_call_logged. destruct (encode_value e value s1) as [enc_value s2].
  rewrite bind_call_logged.
  destruct (encode_op_clause e op enc_name enc_value negate s2) as [clause s3].
  unfold ret. rewrite <- !app_assoc. reflexivity.
Qed.

(** The scenarios of the test encoder: an equality under [negate = true], and
    a [Neq] under [negate = true], which still asks for [CompareOp.Neq]. *)
Example negated_eq_scenario :
  encode_query TestEncoder.enc (TagQuery.Eq (TagName.mk "x") "v") true tt
  = (Ok (Some "NOT(x = v)"), tt).
Proof.
  reflexivity.
Qed.

Example negated_neq_scenario :
  encode_query (recording TestEncoder.enc) (TagQuery.Neq (TagName.mk "x") "v") true (tt, [])
  = (Ok (Some "NOT(x != v)"),
     (tt, [CallName (TagName.mk "x"); CallValue "v";
           CallOpClause CompareOp.Neq (b "x") (b "v") true])).
Proof.
  reflexivity.
Qed.

(** Double negation changes nothing. *)
Lemma double_negation (S : Type) (e : TagQueryEncoder.t S) (q : TagQuery.t)
      (negate : bool) :
  encode_query e (TagQuery.Not (TagQuery.Not q)) negate = encode_query e q negate.
Proof.
  cbn. rewrite negb_involutive. reflexivity.
Qed.

(** ** Canonical serialization *)

(** [quoted] turns each apostrophe into a double quote and nothing else. *)
Example quoted_key : quoted "'a': 1" = String json.dquote ("a" ++ String json.dquote ": 1").
Proof.
  reflexivity.
Qed.


(** C7: [And([Eq(TagName("a"), "1"), Not(Exist([TagName("b")]))])] has the
    WQL string [{"$and": [{"a": "1"}, {"$not": {"$exist": ["b"]}}]}]. *)
Theorem to_wql_str_scenario :
  TagQuery.to_wql_str
    (TagQuery.And [TagQuery.Eq (TagName.mk "a") "1";
                   TagQuery.Not (TagQuery.Exist [TagName.mk "b"])])
  = Ok (quoted "{'$and': [{'a': '1'}, {'$not': {'$exist': ['b']}}]}").
Proof.
  reflexivity.
Qed.

(** ** The legacy adapter *)

Lemma comprehension_Ok (A B : Type) (f : A -> result B) (l : list A) (ys : list B) :
  comprehension f l = Ok ys -> Forall2 (fun x y => f x = Ok y) l ys.
Proof.
  revert ys. induction l as [|x l IH]; intros ys H; cbn in H.
  - injection H as <-. constructor.
  - destruct (f x) as [y|] eqn:Hx; [|discriminate].
    destruct (comprehension f l) as [ys'|]; [|discriminate].
    injection H as <-. constructor; auto.
Qed.

Lemma Forall2_flat_map (A B C D : Type) (R : C -> D -> Prop)
      (f : A -> list C) (g : B -> list D) (l : list A) (l' : list B) :
  Forall2 (fun x y => Forall2 R (f x) (g y)) l l' ->
  Forall2 R (flat_map f l) (flat_map g l').
Proof.
  induction 1; cbn; [constructor|]. apply Forall2_app; assumption.
Qed.

(** What [lstrip("~")] leaves of a key. *)
Lemma lstrip_marker (key : string) : stripped key (TagName.mk (lstrip key "~")).
Proof.
  unfold stripped; cbn [TagName.value].
  induction key as [|c key [n [IH1 IH2]]].
  - exists 0. split; reflexivity.
  - cbn [lstrip char_in]. rewrite orb_false_r.
    destruct (Ascii.eqb_spec c "~"%char) as [->|Hc].
    + exists (Datatypes.S n). split; [cbn; f_equal; exact IH1 | exact IH2].
    + exists 0. split; [reflexivity|].
      cbn. apply Ascii.eqb_neq. exact Hc.
Qed.

(** The name left by the removal of the markers is determined by the key. *)
Lemma stripped_unique (key : string) (name name' : TagName.t) :
  stripped key name -> stripped key name' -> name = name'.
Proof.
  destruct name as [r], name' as [r']; unfold stripped; cbn [TagName.value].
  intros [n [-> Hr]] [m [H Hr']]. f_equal.
  revert m H. induction n as [|n IH]; intros [|m] H; cbn in H.
  - exact H.
  - subst r. cbn in Hr. discriminate.
  - subst r'. cbn in Hr'. discriminate.
  - injection H as H. eauto.
Qed.

Lemma adapter_names (q : Query.t) :
  forall tq, query_to_tagquery q = Ok tq ->
             Forall2 stripped (legacy_keys q) (tag_names tq).
Proof.
  induction q as [sqs IH|sqs IH|sq IH| | | | | | | | | |] using query_ind;
    intros tq H; cbn in H;
    try (injection H as <-; cbn; repeat constructor; apply lstrip_marker);
    try discriminate.
  - destruct (comprehension query_to_tagquery sqs) as [tqs|] eqn:Hc; [|discriminate].
    injection H as <-. cbn. apply Forall2_flat_map.
    apply comprehension_Ok in Hc. clear -IH Hc.
    induction Hc; constructor; inversion IH; subst; auto.
  - destruct (comprehension query_to_tagquery sqs) as [tqs|] eqn:Hc; [|discriminate].
    injection H as <-. cbn. apply Forall2_flat_map.
    apply comprehension_Ok in Hc. clear -IH Hc.
    induction Hc; constructor; inversion IH; subst; auto.
  - destruct (query_to_tagquery sq) as [tq'|]; [|discriminate].
    injection H as <-. cbn. auto.
  - injection H as <-. cbn. induction keys; constructor; auto using lstrip_marker.
Qed.

(** C3, as the code has it: the adapter removes every leading ['~'] of a
    key, not one only.  For every legacy tree that the adapter maps, each
    key, of a comparison, of a membership or of an existence node, is some
    markers followed by the name it was turned into, and that name starts
    with no marker; so ["~name"] and ["~~name"] both become
    [TagName("name")], and ["name"] is unchanged. *)
Theorem adapter_strips_every_leading_marker :
  (forall (q : Query.t) (tq : TagQuery.t),
      query_to_tagquery q = Ok tq ->
      Forall2 stripped (legacy_keys q) (tag_names tq))
  /\ (forall value,
         query_to_tagquery (Query.EqQuery "~name" value)
         = Ok (TagQuery.Eq (TagName.mk "name") value)
         /\ query_to_tagquery (Query.EqQuery "~~name" value)
            = Ok (TagQuery.Eq (TagName.mk "name") value)
         /\ query_to_tagquery (Query.EqQuery "name" value)
            = Ok (TagQuery.Eq (TagName.mk "name") value)).
Proof.
  split; [exact adapter_names | intros value; repeat split].
Qed.

Lemma adapter_strips_every_leading_marker_witness :
  Forall2 stripped
          (legacy_keys (Query.AndQuery [Query.InQuery "~~a" ["1"];
                                        Query.ExistQuery ["~b"; "c"]]))
          (tag_names (TagQuery.And [TagQuery.In (TagName.mk "a") ["1"];
                                    TagQuery.Exist [TagName.mk "b"; TagName.mk "c"]])).
Proof.
  apply (proj1 adapter_strips_every_leading_marker). reflexivity.
Defined.

(** C3, as stated, fails: the key ["~~name"] does not become
    [TagName("~name")], which is what the removal of one marker gives. *)
Lemma adapter_strips_more_than_one_marker :
  strip_one_marker "~~name" = "~name"
  /\ query_to_tagquery (Query.EqQuery "~~name" "v")
     = Ok (TagQuery.Eq (TagName.mk "name") "v")
  /\ query_to_tagquery (Query.EqQuery "~~name" "v")
     <> Ok (TagQuery.Eq (TagName.mk (strip_one_marker "~~name")) "v").
Proof.
  split; [reflexivity | split; [reflexivity | discriminate]].
Qed.

(** ** The placeholder key *)

(** C10: the constructors of a key, [convert_key], [key_exchange],
    [sign_message] and [verify_signature] raise [NotImplementedError] on
    every input, while [aead_encrypt], [aead_decrypt], [wrap_key],
    [unwrap_key], [get_public_bytes], [get_secret_bytes] and the three JWK
    getters return, on every input, one constant that depends on none of
    their arguments. *)
Theorem key_placeholder_split (KeyAlg SeedMethod : Type) :
  ((forall (alg : Key.alg_arg KeyAlg) ephemeral,
       exists msg, Key.generate alg ephemeral = Raise (NotImplementedError msg))
   /\ (forall (alg : Key.alg_arg KeyAlg) seed (method : option (string + SeedMethod)),
          exists msg, Key.from_seed alg seed method = Raise (NotImplementedError msg))
   /\ (forall (alg : Key.alg_arg KeyAlg) secret,
          exists msg, Key.from_secret_bytes alg secret = Raise (NotImplementedError msg))
   /\ (forall (alg : Key.alg_arg KeyAlg) public,
          exists msg, Key.from_public_bytes alg public = Raise (NotImplementedError msg))
   /\ (forall jwk, exists msg, Key.from_jwk jwk = Raise (NotImplementedError msg))
   /\ (forall self (alg : Key.alg_arg KeyAlg),
          exists msg, Key.convert_key self alg = Raise (NotImplementedError msg))
   /\ (forall self (alg : Key.alg_arg KeyAlg) pk,
          exists msg, Key.key_exchange self alg pk = Raise (NotImplementedError msg))
   /\ (forall self message sig_type,
          exists msg, Key.sign_message self message sig_type = Raise (NotImplementedError msg))
   /\ (forall self message signature sig_type,
          exists msg,
            Key.verify_signature self message signature sig_type
            = Raise (NotImplementedError msg)))
  /\
  ((forall self message nonce aad,
       Key.aead_encrypt self message nonce aad = Ok "Encrypted placeholder")
   /\ (forall self ciphertext nonce tag aad,
          Key.aead_decrypt self ciphertext nonce tag aad = Ok (b "decrypted placeholder"))
   /\ (forall self other nonce,
          Key.wrap_key self other nonce = Ok "Encrypted placeholder")
   /\ (forall self (alg : Key.alg_arg KeyAlg) ciphertext nonce tag,
          Key.unwrap_key self alg ciphertext nonce tag
          = Ok (Key.mk (Key.AnyStr "placeholder handle")))
   /\ (forall self, Key.get_public_bytes self = Ok (b "public_bytes_placeholder"))
   /\ (forall self, Key.get_secret_bytes self = Ok (b "secret_bytes_placeholder"))
   /\ (forall self (alg : option (Key.alg_arg KeyAlg)),
          Key.get_jwk_public self alg = Ok "jwk_public_placeholder")
   /\ (forall self, Key.get_jwk_secret self = Ok (b "jwk_secret_placeholder"))
   /\ (forall self (alg : option (Key.alg_arg KeyAlg)),
          Key.get_jwk_thumbprint self alg = Ok "jwk_thumbprint_placeholder")).
Proof.
  split; repeat split; intros; eexists; reflexivity.
Qed.

(** ** The closed variant set *)

Lemma known_false (v : string) :
  known v = false ->
  (v =? "Eq") = false /\ (v =? "Neq") = false /\ (v =? "Gt") = false
  /\ (v =? "Gte") = false /\ (v =? "Lt") = false /\ (v =? "Lte") = false
  /\ (v =? "Like") = false /\ (v =? "In") = false /\ (v =? "Exist") = false
  /\ (v =? "And") = false /\ (v =? "Or") = false /\ (v =? "Not") = false.
Proof.
  unfold known, variants; cbn [existsb]. intros H.
  repeat (apply orb_false_elim in H; destruct H as [?E H]).
  repeat split; assumption.
Qed.

Lemma known_true (v : string) :
  known v = true ->
  v = "Eq" \/ v = "Neq" \/ v = "Gt" \/ v = "Gte" \/ v = "Lt" \/ v = "Lte"
  \/ v = "Like" \/ v = "In" \/ v = "Exist" \/ v = "And" \/ v = "Or" \/ v = "Not".
Proof.
  unfold known, variants; cbn [existsb]. intros H.
  repeat (apply orb_true_iff in H; destruct H as [H|H];
          [apply String.eqb_eq in H; tauto|]).
  discriminate.
Qed.

Lemma to_wql_dict_unknown (v : string) (d : TagQuery.payload) :
  known v = false ->
  TagQuery.to_wql_dict (TagQuery.mk v d) = Raise (ValueError (TagQuery.unknown_variant_msg v)).
Proof.
  intros H. apply known_false in H. cbn [TagQuery.to_wql_dict].
  repeat match goal with H : _ /\ _ |- _ => destruct H as [-> H] end.
  rewrite H. reflexivity.
Qed.

Lemma encode_query_unknown (S : Type) (e : TagQueryEncoder.t S)
      (v : string) (d : TagQuery.payload) (negate : bool) (s : S) :
  known v = false ->
  encode_query e (TagQuery.mk v d) negate s = (Raise (ValueError "Unknown query variant"), s).
Proof.
  intros H. apply known_false in H. cbn [encode_query].
  repeat match goal with H : _ /\ _ |- _ => destruct H as [-> H] end.
  rewrite H. reflexivity.
Qed.

Lemma comprehension_fits (qs : list TagQuery.t) :
  Forall (fun q => fits q = true ->
                   (tags_known q = true /\ exists d, TagQuery.to_wql_dict q = Ok d)
                   \/ (tags_known q = false
                       /\ exists msg, TagQuery.to_wql_dict q = Raise (ValueError msg))) qs ->
  forallb fits qs = true ->
  (forallb tags_known qs = true
   /\ exists ds, comprehension TagQuery.to_wql_dict qs = Ok ds)
  \/ (forallb tags_known qs = false
      /\ exists msg, comprehension TagQuery.to_wql_dict qs = Raise (ValueError msg)).
Proof.
  induction 1 as [|q qs Hq _ IH]; cbn; intros Hf.
  - left. eauto.
  - apply andb_true_iff in Hf as [Hfq Hfqs].
    destruct (Hq Hfq) as [[-> [d ->]]|[-> [msg ->]]]; [|right; eauto].
    destruct (IH Hfqs) as [[-> [ds ->]]|[-> [msg ->]]]; [left|right]; eauto.
Qed.

Lemma to_wql_dict_fits (q : TagQuery.t) :
  fits q = true ->
  (tags_known q = true /\ exists d, TagQuery.to_wql_dict q = Ok d)
  \/ (tags_known q = false
      /\ exists msg, TagQuery.to_wql_dict q = Raise (ValueError msg)).
Proof.
  induction q as [v n x|v n xs|v ns|v qs IH|v q IH] using tagquery_ind; intros Hf;
    (destruct (known v) eqn:Hk;
     [|right; split; [cbn [tags_known]; rewrite Hk; reflexivity|];
       rewrite to_wql_dict_unknown by assumption; eauto]);
    apply known_true in Hk;
    repeat (destruct Hk as [->|Hk]); try subst v; try discriminate Hf;
    try (left; split; [reflexivity | cbn; eauto]; fail).
  - destruct (comprehension_fits IH Hf) as [[Hk [ds Hds]]|[Hk [msg Hm]]]; [left|right];
      (split; [exact Hk|]); cbn.
    + destruct qs; cbn [TagQuery.is_empty]; [eauto|]. rewrite Hds. eauto.
    + destruct qs; cbn [TagQuery.is_empty]; [cbn in Hm; discriminate|]. rewrite Hm. eauto.
  - destruct (comprehension_fits IH Hf) as [[Hk [ds Hds]]|[Hk [msg Hm]]]; [left|right];
      (split; [exact Hk|]); cbn.
    + destruct qs; cbn [TagQuery.is_empty]; [eauto|]. rewrite Hds. eauto.
    + destruct qs; cbn [TagQuery.is_empty]; [cbn in Hm; discriminate|]. rewrite Hm. eauto.
  - destruct (IH Hf) as [[Hk [ds Hds]]|[Hk [msg Hm]]]; [left|right];
      (split; [exact Hk|]); cbn.
    + rewrite Hds. eauto.
    + rewrite Hm. eauto.
Qed.

Lemma bind_Ok (S A B : Type) (m : M S A) (k : A -> M S B) (s s' : S) (a : A) :
  m s = (Ok a, s') -> bind m k s = k a s'.
Proof.
  unfold bind. intros ->. reflexivity.
Qed.

Lemma bind_Raise (S A B : Type) (m : M S A) (k : A -> M S B) (s s' : S) (x : PyExn) :
  m s = (Raise x, s') -> bind m k s = (Raise x, s').
Proof.
  unfold bind. intros ->. reflexivity.
Qed.

Lemma bind_call (S A B : Type) (f : S -> A * S) (k : A -> M S B) (s : S) :
  bind (call f) k s = let (a, s') := f s in k a s'.
Proof.
  unfold bind, call. destruct (f s); reflexivity.
Qed.

Lemma encode_op_returns (S : Type) (e : TagQueryEncoder.t S) op name value negate s :
  exists clause s', encode_op e op name value negate s = (Ok (Some clause), s').
Proof.
  unfold encode_op.
  rewrite bind_call. destruct (encode_name e name s) as [enc_name s1].
  rewrite bind_call. destruct (encode_value e value s1) as [enc_value s2].
  rewrite bind_call. destruct (encode_op_clause e op enc_name enc_value negate s2).
  unfold ret. eauto.
Qed.

Lemma for_each_call_returns (S A B : Type) (f : A -> S -> B * S) (l : list A) (s : S) :
  exists ys s', for_each (fun x => call (f x)) l s = (Ok ys, s').
Proof.
  revert s. induction l as [|x l IH]; intros s; cbn.
  - unfold ret. eauto.
  - rewrite bind_call. destruct (f x s) as [y s1].
    unfold bind. destruct (IH s1) as [ys [s2 ->]]. unfold ret. eauto.
Qed.

Lemma encode_in_returns (S : Type) (e : TagQueryEncoder.t S) name values negate s :
  exists clause s', encode_in e name values negate s = (Ok (Some clause), s').
Proof.
  unfold encode_in.
  rewrite bind_call. destruct (encode_name e name s) as [enc_name s1].
  unfold bind at 1.
  destruct (for_each_call_returns (encode_value e) values s1) as [evs [s2 ->]].
  rewrite bind_call. destruct (encode_in_clause e enc_name evs negate s2).
  unfold ret. eauto.
Qed.

Lemma encode_exist_single_returns (S : Type) (e : TagQueryEncoder.t S) name negate s :
  exists clause s', encode_exist_single e name negate s = (Ok (Some clause), s').
Proof.
  unfold encode_exist_single.
  rewrite bind_call. destruct (encode_name e name s) as [enc_name s1].
  rewrite bind_call. destruct (encode_exist_clause e enc_name negate s1).
  unfold ret. eauto.
Qed.

Lemma for_each_single_returns (S : Type) (e : TagQueryEncoder.t S) names negate s :
  exists clauses s',
    for_each (fun name => encode_exist_single e name negate) names s = (Ok clauses, s').
Proof.
  revert s. induction names as [|name names IH]; intros s; cbn.
  - unfold ret. eauto.
  - unfold bind at 1.
    destruct (encode_exist_single_returns e name negate s) as [c [s1 ->]].
    unfold bind. destruct (IH s1) as [cs [s2 ->]]. unfold ret. eauto.
Qed.

Lemma encode_exist_returns (S : Type) (e : TagQueryEncoder.t S) names negate s :
  exists r s', encode_exist e names negate s = (Ok r, s').
Proof.
  destruct names as [|n1 [|n2 names]]; cbn [encode_exist].
  - unfold ret. eauto.
  - destruct (encode_exist_single_returns e n1 negate s) as [c [s' ->]]. eauto.
  - unfold bind at 1.
    destruct (for_each_single_returns e (n1 :: n2 :: names) negate s) as [cs [s1 ->]].
    rewrite bind_call.
    destruct (encode_conj_clause e ConjunctionOp.And (keep_truthy cs) s1).
    unfold ret. eauto.
Qed.

Lemma encode_query_conjunction (S : Type) (e : TagQueryEncoder.t S) op subqueries negate :
  encode_query e (conjunction op subqueries) negate
  = encode_conj e (encode_query e) op subqueries negate.
Proof.
  destruct op; reflexivity.
Qed.

Lemma encode_query_Not (S : Type) (e : TagQueryEncoder.t S) subquery negate :
  encode_query e (TagQuery.Not subquery) negate = encode_query e subquery (negb negate).
Proof.
  reflexivity.
Qed.

Lemma encode_conj_loop_fits (S : Type) (e : TagQueryEncoder.t S) (negate : bool)
      (qs : list TagQuery.t) :
  Forall (fun q => forall negate s, fits q = true ->
            (tags_known q = true
             /\ exists r s', encode_query e q negate s = (Ok r, s'))
            \/ (tags_known q = false
                /\ exists s', encode_query e q negate s
                              = (Raise (ValueError "Unknown query variant"), s'))) qs ->
  forallb fits qs = true ->
  forall clauses s,
    (forallb tags_known qs = true
     /\ exists cs s', encode_conj_loop (encode_query e) negate qs clauses s = (Ok cs, s'))
    \/ (forallb tags_known qs = false
        /\ exists s', encode_conj_loop (encode_query e) negate qs clauses s
                      = (Raise (ValueError "Unknown query variant"), s')).
Proof.
  induction 1 as [|q qs Hq _ IH]; cbn [forallb encode_conj_loop]; intros Hf clauses s.
  - left. unfold ret. eauto.
  - apply andb_true_iff in Hf as [Hfq Hfqs]. unfold bind.
    destruct (Hq negate s Hfq) as [[-> [r [s1 ->]]]|[-> [s1 ->]]]; [|right; eauto].
    destruct r as [c|]; apply IH; assumption.
Qed.

Lemma encode_query_fits (S : Type) (e : TagQueryEncoder.t S) (q : TagQuery.t) :
  forall negate s,
    fits q = true ->
    (tags_known q = true /\ exists r s', encode_query e q negate s = (Ok r, s'))
    \/ (tags_known q = false
        /\ exists s', encode_query e q negate s
                      = (Raise (ValueError "Unknown query variant"), s')).
Proof.
  induction q as [v n x|v n xs|v ns|v qs IH|v q IH] using tagquery_ind; intros negate s Hf;
    (destruct (known v) eqn:Hk;
     [|right; split; [cbn [tags_known]; rewrite Hk; reflexivity|];
       rewrite encode_query_unknown by assumption; eauto]);
    apply known_true in Hk;
    repeat (destruct Hk as [->|Hk]); try subst v; try discriminate Hf;
    try (left; split; [reflexivity|]; cbn [encode_query String.eqb Ascii.eqb Bool.eqb orb];
         first [ edestruct (@encode_op_returns S e) as [c [s' H]]; rewrite H
               | edestruct (@encode_in_returns S e) as [c [s' H]]; rewrite H
               | edestruct (@encode_exist_returns S e) as [c [s' H]]; rewrite H ];
         eauto; fail).
  - change (TagQuery.mk "And" (TagQuery.ListData qs)) with (conjunction ConjunctionOp.And qs).
    rewrite encode_query_conjunction. unfold encode_conj.
    destruct (@encode_conj_loop_fits S e negate qs IH Hf [] s) as [[Hk [cs [s1 H]]]|[Hk [s1 H]]];
      [left|right]; (split; [exact Hk|]).
    + erewrite bind_Ok by exact H. rewrite bind_call.
      destruct (encode_conj_clause e _ cs s1). unfold ret. eauto.
    + erewrite bind_Raise by exact H. eauto.
  - change (TagQuery.mk "Or" (TagQuery.ListData qs)) with (conjunction ConjunctionOp.Or qs).
    rewrite encode_query_conjunction. unfold encode_conj.
    destruct (@encode_conj_loop_fits S e negate qs IH Hf [] s) as [[Hk [cs [s1 H]]]|[Hk [s1 H]]];
      [left|right]; (split; [exact Hk|]).
    + erewrite bind_Ok by exact H. rewrite bind_call.
      destruct (encode_conj_clause e _ cs s1). unfold ret. eauto.
    + erewrite bind_Raise by exact H. eauto.
  - change (TagQuery.mk "Not" (TagQuery.QueryData q)) with (TagQuery.Not q).
    rewrite encode_query_Not.
    destruct (IH (negb negate) s Hf) as [[Hk H]|[Hk H]]; [left|right]; (split; [exact Hk|]);
      exact H.
Qed.


Lemma Forall_built_fits (qs : list TagQuery.t) :
  Forall (fun q => built q -> fits q = true /\ tags_known q = true) qs ->
  Forall built qs ->
  forallb fits qs = true /\ forallb tags_known qs = true.
Proof.
  induction 1 as [|q qs Hq _ IH]; intros Hb; [split; reflexivity|].
  inversion Hb as [|? ? Hbq Hbqs]; subst.
  destruct (Hq Hbq) as [H1 H2], (IH Hbqs) as [H3 H4].
  cbn [forallb]. rewrite H1, H2, H3, H4. split; reflexivity.
Qed.

Lemma built_fits (q : TagQuery.t) :
  built q -> fits q = true /\ tags_known q = true.
Proof.
  induction q as [v n x|v n xs|v ns|v qs IH|v q IH] using tagquery_ind;
    intros Hb; inversion Hb as [| | | | | | | | |? Hqs|? Hqs|? Hq]; subst;
    try (split; reflexivity).
  - destruct (Forall_built_fits IH Hqs) as [H1 H2]. split; cbn; assumption.
  - destruct (Forall_built_fits IH Hqs) as [H1 H2]. split; cbn; assumption.
  - destruct (IH Hq) as [H1 H2]. split; cbn; assumption.
Qed.

Lemma to_wql_dict_built (q : TagQuery.t) :
  built q -> exists d, TagQuery.to_wql_dict q = Ok d.
Proof.
  intros Hb. destruct (built_fits Hb) as [Hf Hk].
  destruct (to_wql_dict_fits q Hf) as [[_ H]|[Hk' _]]; [exact H | congruence].
Qed.

Lemma encode_query_built (S : Type) (e : TagQueryEncoder.t S) (q : TagQuery.t) negate s :
  built q -> exists r s', encode_query e q negate s = (Ok r, s').
Proof.
  intros Hb. destruct (built_fits Hb) as [Hf Hk].
  destruct (encode_query_fits e q negate s Hf) as [[_ H]|[Hk' _]]; [exact H | congruence].
Qed.

(** C8: a node whose tag is outside the closed set makes [to_wql_dict] and
    [encode_query] raise the unknown-variant [ValueError]; on a tree whose
    payloads have the shapes of the factories, either operation raises that
    fault exactly when some node of the tree carries a tag outside the
    closed set; and on a tree built with the factories both return. *)
Theorem unknown_variant_fault :
  (forall variant data,
      known variant = false ->
      TagQuery.to_wql_dict (TagQuery.mk variant data)
      = Raise (ValueError ("Unknown query variant: " ++ variant))
      /\ forall (S : Type) (e : TagQueryEncoder.t S) negate s,
          encode_query e (TagQuery.mk variant data) negate s
          = (Raise (ValueError "Unknown query variant"), s))
  /\ (forall q,
         fits q = true ->
         ((exists msg, TagQuery.to_wql_dict q = Raise (ValueError msg))
          <-> tags_known q = false)
         /\ forall (S : Type) (e : TagQueryEncoder.t S) negate s,
             (exists msg s', encode_query e q negate s = (Raise (ValueError msg), s'))
             <-> tags_known q = false)
  /\ (forall q,
         built q ->
         (exists d, TagQuery.to_wql_dict q = Ok d)
         /\ forall (S : Type) (e : TagQueryEncoder.t S) negate s,
             exists r s', encode_query e q negate s = (Ok r, s')).
Proof.
  split; [|split].
  - intros variant data Hk. split.
    + apply to_wql_dict_unknown; assumption.
    + intros. apply encode_query_unknown; assumption.
  - intros q Hf. split.
    + destruct (to_wql_dict_fits q Hf) as [[Hk [d Hd]]|[Hk Hm]].
      * split; [intros [msg Hm]; congruence | congruence].
      * split; [intros _; exact Hk | intros _; exact Hm].
    + intros S e negate s.
      destruct (encode_query_fits e q negate s Hf) as [[Hk [r [s' Hd]]]|[Hk [s' Hm]]].
      * split; [intros [msg [s1 Hm]]; congruence | congruence].
      * split; [intros _; exact Hk | intros _; eauto].
  - intros q Hb. split.
    + apply to_wql_dict_built; assumption.
    + intros. apply encode_query_built; assumption.
Qed.

Lemma unknown_variant_fault_witness :
  TagQuery.to_wql_dict (TagQuery.mk "Between" (TagQuery.NamesData []))
  = Raise (ValueError "Unknown query variant: Between")
  /\ (exists msg,
         TagQuery.to_wql_dict
           (TagQuery.Not (TagQuery.mk "Between" (TagQuery.NamesData [])))
         = Raise (ValueError msg))
  /\ (exists d,
         TagQuery.to_wql_dict (TagQuery.And [TagQuery.Exist []]) = Ok d).
Proof.
  split; [|split].
  - apply (proj1 unknown_variant_fault "Between" (TagQuery.NamesData [])).
    reflexivity.
  - apply (proj1 (proj2 unknown_variant_fault)
             (TagQuery.Not (TagQuery.mk "Between" (TagQuery.NamesData []))));
      reflexivity.
  - apply (proj2 (proj2 unknown_variant_fault) (TagQuery.And [TagQuery.Exist []])).
    repeat constructor.
Defined.

(** ** Conjunctions *)

Lemma encode_conj_loop_for_each (S : Type) (e : TagQueryEncoder.t S) (negate : bool)
      (qs : list TagQuery.t) :
  forall clauses s rs s',
    for_each (fun q => encode_query e q negate) qs s = (Ok rs, s') ->
    encode_conj_loop (encode_query e) negate qs clauses s
    = (Ok (clauses ++ drop_none rs)%list, s').
Proof.
  induction qs as [|q qs IH]; intros clauses s rs s'; cbn [for_each encode_conj_loop].
  - unfold ret. intros H; injection H as <- <-. cbn. rewrite app_nil_r. reflexivity.
  - unfold bind at 1 3.
    destruct (encode_query e q negate s) as [[r|x] s1]; [|discriminate].
    unfold bind.
    destruct (for_each (fun q => encode_query e q negate) qs s1) as [[rs'|x] s2] eqn:Hrest;
      [|discriminate].
    unfold ret. intros H; injection H as <- <-.
    destruct r as [c|]; cbn [drop_none].
    + rewrite (IH (clauses ++ [c])%list s1 rs' s2 Hrest), <- app_assoc. reflexivity.
    + apply IH. exact Hrest.
Qed.

Lemma for_each_built (S : Type) (e : TagQueryEncoder.t S) (negate : bool)
      (qs : list TagQuery.t) :
  Forall built qs ->
  forall s, exists rs s', for_each (fun q => encode_query e q negate) qs s = (Ok rs, s').
Proof.
  induction 1 as [|q qs Hq _ IH]; intros s; cbn [for_each].
  - unfold ret. eauto.
  - destruct (encode_query_built e negate s Hq) as [r [s1 H1]].
    erewrite bind_Ok by exact H1.
    destruct (IH s1) as [rs [s2 H2]].
    erewrite bind_Ok by exact H2. unfold ret. eauto.
Qed.

Lemma encode_conj_recording (S : Type) (e : TagQueryEncoder.t S)
      (op : ConjunctionOp.t) (qs : list TagQuery.t) (negate : bool)
      (st : S * list Call) (rs : list (option string)) (s1 : S) (log1 : list Call) :
  for_each (fun q => encode_query (recording e) q negate) qs st = (Ok rs, (s1, log1)) ->
  encode_query (recording e) (conjunction op qs) negate st
  = let (clause, s2) := encode_conj_clause e (final_op op negate) (drop_none rs) s1 in
    (Ok (Some clause),
     (s2, log1 ++ [CallConjClause (final_op op negate) (drop_none rs)])%list).
Proof.
  intros H. rewrite encode_query_conjunction. unfold encode_conj.
  erewrite bind_Ok by (apply encode_conj_loop_for_each; exact H).
  cbn [app recording encode_conj_clause]. rewrite bind_call_logged.
  fold (final_op op negate).
  destruct (encode_conj_clause e (final_op op negate) (drop_none rs) s1). reflexivity.
Qed.

(** C5: whatever [negate] is, encoding [And([])] or [Or([])] calls
    [encode_conj_clause] with the operator of the node, swapped when [negate]
    is set, and the empty list, and returns its clause.  For any subqueries,
    once they have been encoded in order with the same [negate], the results
    that are [None] are dropped and [encode_conj_clause] is called once with
    the others, even when none is left; and the subqueries built with the
    factories are always encoded so. *)
Theorem conj_clause_always_called (S : Type) (e : TagQueryEncoder.t S)
        (op : ConjunctionOp.t) (negate : bool) (s : S) (log : list Call) :
  encode_query (recording e) (conjunction op []) negate (s, log)
  = (let (clause, s') := encode_conj_clause e (final_op op negate) [] s in
     (Ok (Some clause), (s', log ++ [CallConjClause (final_op op negate) []])%list))
  /\ (forall subqueries rs s1 log1,
         for_each (fun q => encode_query (recording e) q negate) subqueries (s, log)
         = (Ok rs, (s1, log1)) ->
         encode_query (recording e) (conjunction op subqueries) negate (s, log)
         = let (clause, s2) :=
             encode_conj_clause e (final_op op negate) (drop_none rs) s1 in
           (Ok (Some clause),
            (s2, log1 ++ [CallConjClause (final_op op negate) (drop_none rs)])%list))
  /\ (forall subqueries,
         Forall built subqueries ->
         exists rs s1 log1,
           for_each (fun q => encode_query (recording e) q negate) subqueries (s, log)
           = (Ok rs, (s1, log1))).
Proof.
  split; [|split].
  - apply (@encode_conj_recording S e op [] negate (s, log) [] s log). reflexivity.
  - intros qs rs s1 log1 H. apply encode_conj_recording. exact H.
  - intros qs Hb.
    destruct (for_each_built (recording e) negate Hb (s, log)) as [rs [[s1 log1] H]].
    eauto.
Qed.

Lemma conj_clause_always_called_witness :
  encode_query (recording TestEncoder.enc)
               (TagQuery.And [TagQuery.Exist []; TagQuery.Eq (TagName.mk "a") "1"])
               true (tt, [])
  = (Ok (Some "(NOT(a = 1))"),
     (tt, [CallName (TagName.mk "a"); CallValue "1";
           CallOpClause CompareOp.Eq (b "a") (b "1") true;
           CallConjClause ConjunctionOp.Or ["NOT(a = 1)"]]))
  /\ exists rs s1 log1,
      for_each (fun q => encode_query (recording TestEncoder.enc) q true)
               [TagQuery.Exist []; TagQuery.Eq (TagName.mk "a") "1"] (tt, [])
      = (Ok rs, (s1, log1)).
Proof.
  split.
  - apply (proj1 (proj2 (conj_clause_always_called
                           TestEncoder.enc ConjunctionOp.And true tt []))
                 [TagQuery.Exist []; TagQuery.Eq (TagName.mk "a") "1"]
                 [None; Some "NOT(a = 1)"] tt
                 [CallName (TagName.mk "a"); CallValue "1";
                  CallOpClause CompareOp.Eq (b "a") (b "1") true]).
    reflexivity.
  - apply (proj2 (proj2 (conj_clause_always_called
                           TestEncoder.enc ConjunctionOp.And true tt []))).
    repeat constructor.
Defined.

(** ** Existence *)

Lemma encode_exist_single_recording (S : Type) (e : TagQueryEncoder.t S)
      (name : TagName.t) (negate : bool) (s : S) (log : list Call) :
  encode_exist_single (recording e) name negate (s, log)
  = let (enc_name, s1) := encode_name e name s in
    let (clause, s2) := encode_exist_clause e enc_name negate s1 in
    (Ok (Some clause),
     (s2, log ++ [CallName name; CallExistClause enc_name negate])%list).
Proof.
  unfold encode_exist_single. cbn [recording encode_name encode_exist_clause].
  rewrite bind_call_logged. destruct (encode_name e name s) as [enc_name s1].
  rewrite bind_call_logged. destruct (encode_exist_clause e enc_name negate s1).
  unfold ret. rewrite <- app_assoc. reflexivity.
Qed.

Lemma for_each_single_recording (S : Type) (e : TagQueryEncoder.t S)
      (names : list TagName.t) (negate : bool) :
  forall (s : S) (log : list Call),
    for_each (fun name => encode_exist_single (recording e) name negate) names (s, log)
    = let '(clauses, s1, calls) := per_name e names negate s in
      (Ok (map Some clauses), (s1, log ++ calls)%list).
Proof.
  induction names as [|name names IH]; intros s log; cbn [for_each per_name].
  - unfold ret. rewrite app_nil_r. reflexivity.
  - unfold bind at 1. rewrite encode_exist_single_recording.
    destruct (encode_name e name s) as [enc_name s1].
    destruct (encode_exist_clause e enc_name negate s1) as [clause s2].
    unfold bind. rewrite IH.
    destruct (per_name e names negate s2) as [[clauses s3] calls].
    unfold ret. cbn [map]. rewrite <- app_assoc. reflexivity.
Qed.

Lemma keep_truthy_Some (clauses : list string) :
  keep_truthy (map Some clauses) = truthy_clauses clauses.
Proof.
  induction clauses as [|c clauses IH]; cbn; [reflexivity|].
  rewrite IH. reflexivity.
Qed.

Lemma drop_none_Some (clauses : list string) : drop_none (map Some clauses) = clauses.
Proof.
  induction clauses as [|c clauses IH]; cbn; congruence.
Qed.

Lemma encode_exist_many (S : Type) (e : TagQueryEncoder.t S)
      (names : list TagName.t) (negate : bool) (s : S) (log : list Call) :
  2 <= length names ->
  encode_query (recording e) (TagQuery.Exist names) negate (s, log)
  = exist_outcome e truthy_clauses names negate s log.
Proof.
  intros Hlen. destruct names as [|n1 [|n2 names]]; cbn in Hlen; try lia.
  change (encode_query (recording e) (TagQuery.Exist (n1 :: n2 :: names)) negate)
    with (encode_exist (recording e) (n1 :: n2 :: names) negate).
  unfold exist_outcome. cbn [encode_exist].
  unfold bind at 1. rewrite for_each_single_recording.
  destruct (per_name e (n1 :: n2 :: names) negate s) as [[clauses s1] calls].
  cbn [recording encode_conj_clause]. rewrite bind_call_logged, keep_truthy_Some.
  destruct (encode_conj_clause e ConjunctionOp.And (truthy_clauses clauses) s1).
  unfold ret. rewrite <- app_assoc. reflexivity.
Qed.

(** C6, as the code has it: an [Exist] without names returns [None] and
    calls nothing; with one name it calls [encode_name] and then
    [encode_exist_clause] with the [negate] it was given; with two names or
    more it does so for each name in turn, with the same [negate], and then
    calls [encode_conj_clause] with [ConjunctionOp.And], whatever [negate]
    is, on the clauses obtained that are not empty strings. *)
Theorem exist_by_number_of_names (S : Type) (e : TagQueryEncoder.t S)
        (negate : bool) (s : S) (log : list Call) :
  encode_query (recording e) (TagQuery.Exist []) negate (s, log) = (Ok None, (s, log))
  /\ (forall name,
         encode_query (recording e) (TagQuery.Exist [name]) negate (s, log)
         = let (enc_name, s1) := encode_name e name s in
           let (clause, s2) := encode_exist_clause e enc_name negate s1 in
           (Ok (Some clause),
            (s2, log ++ [CallName name; CallExistClause enc_name negate])%list))
  /\ (forall names,
         2 <= length names ->
         encode_query (recording e) (TagQuery.Exist names) negate (s, log)
         = exist_outcome e truthy_clauses names negate s log).
Proof.
  split; [reflexivity|split].
  - intros name. apply encode_exist_single_recording.
  - intros names. apply encode_exist_many.
Qed.

Lemma exist_by_number_of_names_witness :
  encode_query (recording TestEncoder.enc)
               (TagQuery.Exist [TagName.mk "a"; TagName.mk "b"]) true (tt, [])
  = (Ok (Some "(NOT(a IS NOT NULL) AND NOT(b IS NOT NULL))"),
     (tt, [CallName (TagName.mk "a"); CallExistClause (b "a") true;
           CallName (TagName.mk "b"); CallExistClause (b "b") true;
           CallConjClause ConjunctionOp.And
                          ["NOT(a IS NOT NULL)"; "NOT(b IS NOT NULL)"]])).
Proof.
  rewrite (proj2 (proj2 (exist_by_number_of_names TestEncoder.enc true tt []))
                 [TagName.mk "a"; TagName.mk "b"]).
  - reflexivity.
  - cbn. lia.
Defined.

(** C6, as stated, fails: with an encoder whose existence clause is the
    empty string, [Exist] on two names does not hand the two clauses to
    [encode_conj_clause]; it hands it the empty list. *)
Lemma exist_does_not_combine_every_clause :
  encode_query (recording BlankExist.enc)
               (TagQuery.Exist [TagName.mk "a"; TagName.mk "b"]) false (tt, [])
  <> exist_outcome BlankExist.enc every_clause
                   [TagName.mk "a"; TagName.mk "b"] false tt [].
Proof.
  vm_compute. discriminate.
Qed.

Lemma per_name_blank (S : Type) (e : TagQueryEncoder.t S)
      (names : list TagName.t) (negate : bool) :
  (forall enc_name ng st, fst (encode_exist_clause e enc_name ng st) = EmptyString) ->
  forall s, fst (fst (per_name e names negate s)) = map (fun _ => EmptyString) names.
Proof.
  intros Hblank. induction names as [|name names IH]; intros s; cbn [per_name map].
  - reflexivity.
  - destruct (encode_name e name s) as [enc_name s1].
    specialize (Hblank enc_name negate s1).
    destruct (encode_exist_clause e enc_name negate s1) as [clause s2].
    specialize (IH s2).
    destruct (per_name e names negate s2) as [[clauses s3] calls].
    cbn in *. congruence.
Qed.

Lemma truthy_clauses_blank (A : Type) (l : list A) :
  truthy_clauses (map (fun _ => EmptyString) l) = [].
Proof.
  induction l; cbn; auto.
Qed.

Lemma for_each_map (S A B C : Type) (g : A -> B) (f : B -> M S C) (l : list A) (s : S) :
  for_each f (map g l) s = for_each (fun x => f (g x)) l s.
Proof.
  revert s. induction l as [|x l IH]; intros s; cbn [map for_each]; [reflexivity|].
  unfold bind. destruct (f (g x) s) as [[y|x0] s1]; [|reflexivity].
  rewrite IH. reflexivity.
Qed.

(** C9: in an [Exist] on two names or more, the list handed to
    [encode_conj_clause] is the per-name clauses without the empty strings.
    So with an encoder whose existence clause is the empty string the
    conjunction of the [Exist] receives the empty list, fewer clauses than
    there are names, whereas an [And] of the one-name [Exist]s of the same
    names, which drops [None] results only, hands every one of the empty
    clauses to [encode_conj_clause]. *)
Theorem exist_filters_by_truthiness (S : Type) (e : TagQueryEncoder.t S)
        (names : list TagName.t) (negate : bool) (s : S) (log : list Call) :
  2 <= length names ->
  encode_query (recording e) (TagQuery.Exist names) negate (s, log)
  = exist_outcome e (filter str_truthy) names negate s log
  /\ ((forall enc_name ng st, fst (encode_exist_clause e enc_name ng st) = EmptyString) ->
      (exists clause s' calls,
          encode_query (recording e) (TagQuery.Exist names) negate (s, log)
          = (Ok (Some clause),
             (s', log ++ calls ++ [CallConjClause ConjunctionOp.And []])%list))
      /\ (exists clause s' calls,
             encode_query (recording e)
                          (TagQuery.And (map (fun name => TagQuery.Exist [name]) names))
                          negate (s, log)
             = (Ok (Some clause),
                (s', log ++ calls
                         ++ [CallConjClause (final_op ConjunctionOp.And negate)
                                            (map (fun _ => EmptyString) names)])%list))).
Proof.
  intros Hlen. split; [apply encode_exist_many; exact Hlen|].
  intros Hblank. pose proof (per_name_blank e names negate Hblank s) as Hcs. split.
  - rewrite encode_exist_many by exact Hlen. unfold exist_outcome.
    destruct (per_name e names negate s) as [[clauses s1] calls].
    cbn in Hcs. subst clauses. rewrite truthy_clauses_blank.
    destruct (encode_conj_clause e ConjunctionOp.And [] s1) as [clause s2].
    eauto.
  - pose proof (for_each_single_recording e names negate s log) as Hrun.
    destruct (per_name e names negate s) as [[clauses s1] calls].
    cbn in Hcs. subst clauses.
    change (TagQuery.And (map (fun name => TagQuery.Exist [name]) names))
      with (conjunction ConjunctionOp.And (map (fun name => TagQuery.Exist [name]) names)).
    erewrite encode_conj_recording
      by (rewrite for_each_map; exact Hrun).
    rewrite drop_none_Some.
    destruct (encode_conj_clause e (final_op ConjunctionOp.And negate)
                                 (map (fun _ => EmptyString) names) s1) as [clause s2].
    rewrite <- app_assoc. eauto.
Qed.

Lemma exist_filters_by_truthiness_witness :
  (exists clause s' calls,
      encode_query (recording BlankExist.enc)
                   (TagQuery.Exist [TagName.mk "a"; TagName.mk "b"]) false (tt, [])
      = (Ok (Some clause),
         (s', [] ++ calls ++ [CallConjClause ConjunctionOp.And []])%list))
  /\ (exists clause s' calls,
         encode_query (recording BlankExist.enc)
                      (TagQuery.And [TagQuery.Exist [TagName.mk "a"];
                                     TagQuery.Exist [TagName.mk "b"]]) false (tt, [])
         = (Ok (Some clause),
            (s', [] ++ calls ++ [CallConjClause ConjunctionOp.And [EmptyString; EmptyString]])%list)).
Proof.
  apply (fun H => proj2 (@exist_filters_by_truthiness
                           unit BlankExist.enc [TagName.mk "a"; TagName.mk "b"]
                           false tt [] H)).
  - cbn. lia.
  - reflexivity.
Defined.

(** ** One-to-one serialization *)

Lemma to_wql_dict_conj (token variant : string) (qs : list TagQuery.t) :
  (variant, token) = ("And", "$and") \/ (variant, token) = ("Or", "$or") ->
  TagQuery.to_wql_dict (TagQuery.mk variant (TagQuery.ListData qs))
  = if TagQuery.is_empty qs then Ok (PDict [])
    else match comprehension TagQuery.to_wql_dict qs with
         | Raise x => Raise x
         | Ok ds => Ok (PDict [(token, PList ds)])
         end.
Proof.
  intros [H|H]; injection H as -> ->; reflexivity.
Qed.

Lemma to_wql_dict_Not (q : TagQuery.t) :
  TagQuery.to_wql_dict (TagQuery.mk "Not" (TagQuery.QueryData q))
  = match TagQuery.to_wql_dict q with
    | Raise x => Raise x
    | Ok d => Ok (PDict [("$not", d)])
    end.
Proof.
  reflexivity.
Qed.

Lemma comprehension_built (qs : list TagQuery.t) :
  Forall built qs -> exists ds, comprehension TagQuery.to_wql_dict qs = Ok ds.
Proof.
  induction 1 as [|q qs Hq _ [ds IH]]; cbn; [eauto|].
  destruct (to_wql_dict_built Hq) as [d ->]. rewrite IH. eauto.
Qed.

(** What a built tree serializes to is a dict, and not one on the key
    ["$in"] with a list under it. *)
Lemma to_wql_dict_shape (q : TagQuery.t) (d : PyVal) :
  built q -> TagQuery.to_wql_dict q = Ok d ->
  (exists items, d = PDict items) /\ (forall l, d <> PDict [("$in", PList l)]).
Proof.
  intros Hb H.
  inversion Hb as [| | | | | | | | |qs Hqs|qs Hqs|q' Hq']; subst;
    unfold TagQuery.And, TagQuery.Or, TagQuery.Not in *;
    try (cbn in H; unfold TagQuery.op_dict in H; injection H as <-; split; [eauto | intros l; discriminate]).
  - rewrite (@to_wql_dict_conj "$and") in H by auto.
    destruct qs as [|q0 qs]; cbn [TagQuery.is_empty] in H;
      [|destruct (comprehension TagQuery.to_wql_dict (q0 :: qs)); [|discriminate]];
      injection H as <-; split; eauto; intros l; discriminate.
  - rewrite (@to_wql_dict_conj "$or") in H by auto.
    destruct qs as [|q0 qs]; cbn [TagQuery.is_empty] in H;
      [|destruct (comprehension TagQuery.to_wql_dict (q0 :: qs)); [|discriminate]];
      injection H as <-; split; eauto; intros l; discriminate.
  - rewrite to_wql_dict_Not in H.
    destruct (to_wql_dict_built Hq') as [d' Hd']. rewrite Hd' in H.
    injection H as <-; split; eauto; intros l; discriminate.
Qed.

Lemma ser_conj (token variant : string) (qs : list TagQuery.t) :
  (variant, token) = ("And", "$and") \/ (variant, token) = ("Or", "$or") ->
  Forall built qs ->
  canonical (TagQuery.mk variant (TagQuery.ListData qs)) = true ->
  exists ds,
    comprehension TagQuery.to_wql_dict qs = Ok ds
    /\ forallb canonical qs = true
    /\ TagQuery.to_wql_dict (TagQuery.mk variant (TagQuery.ListData qs))
       = Ok (PDict [(token, PList ds)]).
Proof.
  intros Hv Hb Hc. cbn [canonical] in Hc. apply andb_true_iff in Hc as [Hne Hc].
  destruct (comprehension_built Hb) as [ds Hds]. exists ds.
  rewrite (to_wql_dict_conj qs Hv), Hds.
  destruct qs; [discriminate|]. auto.
Qed.

Lemma ser_not (q : TagQuery.t) :
  built q ->
  exists d,
    TagQuery.to_wql_dict q = Ok d
    /\ (exists items, d = PDict items)
    /\ (forall l, d <> PDict [("$in", PList l)])
    /\ TagQuery.to_wql_dict (TagQuery.mk "Not" (TagQuery.QueryData q))
       = Ok (PDict [("$not", d)]).
Proof.
  intros Hb. destruct (to_wql_dict_built Hb) as [d Hd]. exists d.
  destruct (to_wql_dict_shape Hb Hd) as [H1 H2].
  rewrite to_wql_dict_Not, Hd. auto.
Qed.

Lemma comprehension_injective (qs1 : list TagQuery.t) :
  Forall (fun q1 =>
            built q1 -> canonical q1 = true ->
            forall q2, built q2 -> canonical q2 = true ->
                       TagQuery.to_wql_dict q1 = TagQuery.to_wql_dict q2 -> q1 = q2) qs1 ->
  Forall built qs1 -> forallb canonical qs1 = true ->
  forall qs2,
    Forall built qs2 -> forallb canonical qs2 = true ->
    comprehension TagQuery.to_wql_dict qs1 = comprehension TagQuery.to_wql_dict qs2 ->
    qs1 = qs2.
Proof.
  induction 1 as [|q1 qs1 Hq1 _ IH]; intros Hb1 Hc1 [|q2 qs2] Hb2 Hc2 H.
  - reflexivity.
  - inversion Hb2 as [|? ? Hq2 Hqs2]; subst. cbn in H.
    destruct (to_wql_dict_built Hq2) as [d Hd]. rewrite Hd in H.
    destruct (comprehension_built Hqs2) as [ds Hds]. rewrite Hds in H. discriminate.
  - inversion Hb1 as [|? ? Hbq1 Hbqs1]; subst. cbn in H.
    destruct (to_wql_dict_built Hbq1) as [d Hd]. rewrite Hd in H.
    destruct (comprehension_built Hbqs1) as [ds Hds]. rewrite Hds in H. discriminate.
  - inversion Hb1 as [|? ? Hbq1 Hbqs1]; subst.
    inversion Hb2 as [|? ? Hbq2 Hbqs2]; subst.
    cbn [forallb] in Hc1, Hc2.
    apply andb_true_iff in Hc1 as [Hcq1 Hcqs1], Hc2 as [Hcq2 Hcqs2].
    cbn [comprehension] in H.
    destruct (to_wql_dict_built Hbq1) as [d1 Hd1], (to_wql_dict_built Hbq2) as [d2 Hd2].
    destruct (comprehension_built Hbqs1) as [ds1 Hds1],
             (comprehension_built Hbqs2) as [ds2 Hds2].
    fold (comprehension TagQuery.to_wql_dict) in H.
    rewrite Hd1, Hd2, Hds1, Hds2 in H. injection H as -> ->.
    f_equal.
    + apply Hq1; auto. congruence.
    + apply IH; auto. congruence.
Qed.

Lemma tag_name_eq (n n' : TagName.t) :
  TagName.to_string n = TagName.to_string n' -> n = n'.
Proof.
  destruct n, n'; cbn. congruence.
Qed.

Lemma map_PStr_injective (l l' : list string) : map PStr l = map PStr l' -> l = l'.
Proof.
  revert l'. induction l as [|x l IH]; intros [|x' l'] H; try discriminate; auto.
  injection H as -> H. f_equal. auto.
Qed.

Lemma map_names_injective (l l' : list TagName.t) :
  map (fun name => PStr (TagName.to_string name)) l
  = map (fun name => PStr (TagName.to_string name)) l' -> l = l'.
Proof.
  revert l'. induction l as [|x l IH]; intros [|x' l'] H; try discriminate; auto.
  injection H as Hx H. f_equal; auto using tag_name_eq.
Qed.

Lemma to_wql_dict_injective (q1 : TagQuery.t) :
  built q1 -> canonical q1 = true ->
  forall q2, built q2 -> canonical q2 = true ->
             TagQuery.to_wql_dict q1 = TagQuery.to_wql_dict q2 -> q1 = q2.
Proof.
  induction q1 as [v n x|v n xs|v ns|v qs IH|v q IH] using tagquery_ind;
    intros Hb1 Hc1 q2 Hb2 Hc2 H;
    inversion Hb1 as [| | | | | | | | |? Hqs1|? Hqs1|? Hq1]; subst;
    inversion Hb2 as [| | | | | | | | |qs2 Hqs2|qs2 Hqs2|q2' Hq2]; subst;
    unfold TagQuery.Eq, TagQuery.Neq, TagQuery.Gt, TagQuery.Gte, TagQuery.Lt,
      TagQuery.Lte, TagQuery.Like, TagQuery.In, TagQuery.Exist,
      TagQuery.And, TagQuery.Or, TagQuery.Not in *;
    repeat match goal with
      | Hqs : Forall built ?qs,
        Hc : canonical (TagQuery.mk "And" (TagQuery.ListData ?qs)) = true |- _ =>
          destruct (@ser_conj "$and" "And" qs (or_introl eq_refl) Hqs Hc)
            as [?ds [?Hds [?Hcs ?Hser]]]; clear Hc; rewrite Hser in H; clear Hser
      | Hqs : Forall built ?qs,
        Hc : canonical (TagQuery.mk "Or" (TagQuery.ListData ?qs)) = true |- _ =>
          destruct (@ser_conj "$or" "Or" qs (or_intror eq_refl) Hqs Hc)
            as [?ds [?Hds [?Hcs ?Hser]]]; clear Hc; rewrite Hser in H; clear Hser
      | Hq : built ?q,
        Hc : canonical (TagQuery.mk "Not" (TagQuery.QueryData ?q)) = true |- _ =>
          destruct (ser_not Hq) as [?d [?Hd [[?items ?Hitems] [?Hin ?Hser]]]];
          cbn [canonical] in Hc; revert Hc; rewrite Hser in H; clear Hser
      end; intros;
    cbn in H; unfold TagQuery.op_dict in H;
    try discriminate H;
    try (injection H as Hkey Hval;
         first
           [ subst; discriminate
           | exfalso;
             match goal with
             | Hin : forall l, ?d <> _ |- _ =>
                 solve [eapply Hin; eauto | eapply Hin; symmetry; eauto]
             end
           | match goal with
             | Hc : canonical (TagQuery.mk _ (TagQuery.PairData _ _)) = true |- _ =>
                 cbn in Hc;
                 first [ rewrite <- Hkey in Hc; discriminate Hc
                       | rewrite Hkey in Hc; discriminate Hc ]
             end ]; fail).
  - injection H as Hkey Hval. apply tag_name_eq in Hkey. congruence.
  - injection H as Hkey Hval. apply tag_name_eq in Hkey. congruence.
  - injection H as Hkey Hval. apply tag_name_eq in Hkey. congruence.
  - injection H as Hkey Hval. apply tag_name_eq in Hkey. congruence.
  - injection H as Hkey Hval. apply tag_name_eq in Hkey. congruence.
  - injection H as Hkey Hval. apply tag_name_eq in Hkey. congruence.
  - injection H as Hkey Hval. apply tag_name_eq in Hkey. congruence.
  - injection H as Hkey Hval. apply tag_name_eq in Hkey.
    apply map_PStr_injective in Hval. congruence.
  - injection H as Hval. apply map_names_injective in Hval. congruence.
  - injection H as Hval. do 2 f_equal.
    apply (comprehension_injective IH); auto; congruence.
  - injection H as Hval. do 2 f_equal.
    apply (comprehension_injective IH); auto; congruence.
  - injection H as Hval. do 2 f_equal. apply IH; auto. congruence.
Qed.

(** C4, as the code has it: [to_wql_dict] is one-to-one on the trees built
    with the factories in which no [And] or [Or] is empty and no [Neq], [Gt],
    [Gte], [Lt], [Lte] or [Like] is on the tag name ["$not"]: two distinct
    such trees serialize to distinct mappings. *)
Theorem to_wql_dict_one_to_one (q1 q2 : TagQuery.t) :
  built q1 -> built q2 ->
  canonical q1 = true -> canonical q2 = true ->
  q1 <> q2 ->
  TagQuery.to_wql_dict q1 <> TagQuery.to_wql_dict q2.
Proof.
  intros Hb1 Hb2 Hc1 Hc2 Hne H. apply Hne.
  apply (to_wql_dict_injective Hb1 Hc1 Hb2 Hc2 H).
Qed.

Lemma to_wql_dict_one_to_one_witness :
  TagQuery.to_wql_dict (TagQuery.And [TagQuery.Eq (TagName.mk "a") "1"])
  <> TagQuery.to_wql_dict (TagQuery.Or [TagQuery.Eq (TagName.mk "a") "1"]).
Proof.
  apply to_wql_dict_one_to_one.
  - repeat constructor.
  - repeat constructor.
  - reflexivity.
  - reflexivity.
  - discriminate.
Defined.

(** C4, as stated, fails: [And([])] and [Or([])] are distinct trees built
    with the factories, and both serialize to the empty mapping. *)
Lemma empty_conjunctions_serialize_alike :
  built (TagQuery.And []) /\ built (TagQuery.Or [])
  /\ TagQuery.And [] <> TagQuery.Or []
  /\ TagQuery.to_wql_dict (TagQuery.And []) = TagQuery.to_wql_dict (TagQuery.Or [])
  /\ TagQuery.to_wql_dict (TagQuery.And []) = Ok (PDict []).
Proof.
  repeat split; try discriminate; repeat constructor.
Qed.

(** The second way two trees meet: a comparison on the name ["$not"] and the
    negation of an equality on the name of an operator token. *)
Lemma not_token_serializes_alike :
  TagQuery.Neq (TagName.mk "$not") "v" <> TagQuery.Not (TagQuery.Eq (TagName.mk "$neq") "v")
  /\ TagQuery.to_wql_dict (TagQuery.Neq (TagName.mk "$not") "v")
     = TagQuery.to_wql_dict (TagQuery.Not (TagQuery.Eq (TagName.mk "$neq") "v")).
Proof.
  split; [discriminate | reflexivity].
Qed.

(** * Further properties *)

(** ** Membership *)

Lemma for_each_value_recording (S : Type) (e : TagQueryEncoder.t S) (values : list string) :
  forall (s : S) (log : list Call),
    for_each (fun v => call (encode_value (recording e) v)) values (s, log)
    = let '(enc_values, s1, calls) := per_value e values s in
      (Ok enc_values, (s1, log ++ calls)%list).
Proof.
  induction values as [|value values IH]; intros s log; cbn [for_each per_value].
  - unfold ret. rewrite app_nil_r. reflexivity.
  - cbn [recording encode_value]. rewrite bind_call_logged.
    destruct (encode_value e value s) as [enc_value s1].
    unfold bind. cbn [recording encode_value] in IH. rewrite IH.
    destruct (per_value e values s1) as [[enc_values s2] calls].
    unfold ret. rewrite <- app_assoc. reflexivity.
Qed.

Lemma per_value_calls (S : Type) (e : TagQueryEncoder.t S) (values : list string) (s : S) :
  snd (per_value e values s) = map CallValue values
  /\ length (fst (fst (per_value e values s))) = length values.
Proof.
  revert s. induction values as [|value values IH]; intros s; cbn [per_value map].
  - split; reflexivity.
  - destruct (encode_value e value s) as [enc_value s1].
    destruct (IH s1) as [IH1 IH2].
    destruct (per_value e values s1) as [[enc_values s2] calls].
    cbn in *. split; congruence.
Qed.

Lemma encode_in_recording (S : Type) (e : TagQueryEncoder.t S)
      (name : TagName.t) (values : list string) (negate : bool)
      (s : S) (log : list Call) :
  encode_in (recording e) name values negate (s, log)
  = let (enc_name, s1) := encode_name e name s in
    let '(enc_values, s2, calls) := per_value e values s1 in
    let (clause, s3) := encode_in_clause e enc_name enc_values negate s2 in
    (Ok (Some clause),
     (s3, log ++ CallName name :: calls
              ++ [CallInClause enc_name enc_values negate])%list).
Proof.
  unfold encode_in. cbn [recording encode_name encode_in_clause].
  rewrite bind_call_logged. destruct (encode_name e name s) as [enc_name s1].
  unfold bind at 1.
  change (fun v : string => call (logged (CallValue v) (encode_value e v)))
    with (fun v : string => call (encode_value (recording e) v)).
  rewrite for_each_value_recording.
  destruct (per_value e values s1) as [[enc_values s2] calls].
  rewrite bind_call_logged.
  destruct (encode_in_clause e enc_name enc_values negate s2) as [clause s3].
  unfold ret. rewrite <- !app_assoc. reflexivity.
Qed.

(** X1: encoding [In(name, values)] calls [encode_name] once, then
    [encode_value] once for each value, in the order of the list, then
    [encode_in_clause] with the encoded name, the encoded values in that
    order and the [negate] flag it was given, and returns the clause of that
    call; with no value at all the clause primitive is still called, on the
    empty list. *)
Theorem in_encodes_values_in_order (S : Type) (e : TagQueryEncoder.t S)
        (name : TagName.t) (values : list string) (negate : bool)
        (s : S) (log : list Call) :
  encode_query (recording e) (TagQuery.In name values) negate (s, log)
  = (let (enc_name, s1) := encode_name e name s in
     let '(enc_values, s2, calls) := per_value e values s1 in
     let (clause, s3) := encode_in_clause e enc_name enc_values negate s2 in
     (Ok (Some clause),
      (s3, log ++ CallName name :: calls
               ++ [CallInClause enc_name enc_values negate])%list))
  /\ (forall s1, snd (per_value e values s1) = map CallValue values
                 /\ length (fst (fst (per_value e values s1))) = length values).
Proof.
  split.
  - apply encode_in_recording.
  - intros s1. apply per_value_calls.
Qed.

(** ** Negation *)

(** X2: [n] negations around a tree leave the encoding of the tree as it is
    when [n] is even and encode it with the opposite [negate] when [n] is
    odd; no call is made for the [Not] nodes themselves. *)
Theorem nested_negations_by_parity (S : Type) (e : TagQueryEncoder.t S)
        (n : nat) (q : TagQuery.t) (negate : bool) :
  encode_query e (nest_not n q) negate
  = encode_query e q (if Nat.even n then negate else negb negate).
Proof.
  revert negate. induction n as [|n IH]; intros negate.
  - reflexivity.
  - cbn [nest_not]. rewrite encode_query_Not, IH, Nat.even_succ, <- Nat.negb_even.
    destruct (Nat.even n); cbn; rewrite ?negb_involutive; reflexivity.
Qed.

Lemma bind_ext (S A B : Type) (m : M S A) (k k' : A -> M S B) (s : S) :
  (forall a s', k a s' = k' a s') -> bind m k s = bind m k' s.
Proof.
  intros H. unfold bind. destruct (m s) as [[a|x] s']; auto.
Qed.

Lemma encode_conj_loop_Not (S : Type) (e : TagQueryEncoder.t S) (negate : bool)
      (qs : list TagQuery.t) :
  forall clauses s,
    encode_conj_loop (encode_query e) negate (map TagQuery.Not qs) clauses s
    = encode_conj_loop (encode_query e) (negb negate) qs clauses s.
Proof.
  induction qs as [|q qs IH]; intros clauses s; cbn [map encode_conj_loop].
  - reflexivity.
  - rewrite encode_query_Not. apply bind_ext. intros [c|] s'; apply IH.
Qed.

(** X3: De Morgan at any node: for either operator, any list of subqueries
    and either [negate], encoding the negation of a conjunction is encoding
    the conjunction of the other operator over the negated subqueries. *)
Theorem de_morgan_any_conjunction (S : Type) (e : TagQueryEncoder.t S)
        (op : ConjunctionOp.t) (subqueries : list TagQuery.t)
        (negate : bool) (s : S) :
  encode_query e (TagQuery.Not (conjunction op subqueries)) negate s
  = encode_query e (conjunction (ConjunctionOp.negate op)
                                (map TagQuery.Not subqueries)) negate s.
Proof.
  rewrite encode_query_Not, !encode_query_conjunction. unfold encode_conj.
  replace (if negate then ConjunctionOp.negate (ConjunctionOp.negate op)
           else ConjunctionOp.negate op)
    with (if negb negate then ConjunctionOp.negate op else op)
    by (destruct negate, op; reflexivity).
  unfold bind at 1 3. rewrite encode_conj_loop_Not. reflexivity.
Qed.

(** ** Operators *)

(** X4: two distinct comparison operators render to distinct tokens, and so
    do the two conjunction operators, so a token names its operator;
    [as_sql_str_for_prefix] gives the token of every comparison operator
    but [Like], for which it gives [None]; and [negate] swaps the two
    conjunction operators: it never returns its argument, and applied twice
    it does. *)
Theorem operator_tokens_are_distinct :
  (forall op op' : CompareOp.t,
      op <> op' -> CompareOp.as_sql_str op <> CompareOp.as_sql_str op')
  /\ (forall op op' : ConjunctionOp.t,
         op <> op' -> ConjunctionOp.as_sql_str op <> ConjunctionOp.as_sql_str op')
  /\ (forall op : CompareOp.t,
         (CompareOp.as_sql_str_for_prefix op = None <-> op = CompareOp.Like)
         /\ (op <> CompareOp.Like ->
             CompareOp.as_sql_str_for_prefix op = Some (CompareOp.as_sql_str op)))
  /\ (forall op : ConjunctionOp.t,
         ConjunctionOp.negate op <> op
         /\ ConjunctionOp.negate (ConjunctionOp.negate op) = op).
Proof.
  split; [|split; [|split]].
  - intros [] [] Hne; cbn; try discriminate; exfalso; apply Hne; reflexivity.
  - intros [] [] Hne; cbn; try discriminate; exfalso; apply Hne; reflexivity.
  - intros []; cbn; (split; [split; intros H; first [discriminate H | reflexivity]|]);
      intros Hne; first [reflexivity | exfalso; apply Hne; reflexivity].
  - intros []; split; try reflexivity; discriminate.
Qed.

Lemma operator_tokens_are_distinct_witness :
  CompareOp.as_sql_str CompareOp.Gt <> CompareOp.as_sql_str CompareOp.Gte
  /\ ConjunctionOp.as_sql_str ConjunctionOp.And <> ConjunctionOp.as_sql_str ConjunctionOp.Or
  /\ CompareOp.as_sql_str_for_prefix CompareOp.Lte = Some (CompareOp.as_sql_str CompareOp.Lte).
Proof.
  split; [|split].
  - apply (proj1 operator_tokens_are_distinct). discriminate.
  - apply (proj1 (proj2 operator_tokens_are_distinct)). discriminate.
  - apply (proj1 (proj2 (proj2 operator_tokens_are_distinct))). discriminate.
Defined.

(** ** Tag names *)


(** ** The hooks of an encoder *)

Lemma encode_op_recording (S : Type) (e : TagQueryEncoder.t S)
      (op : CompareOp.t) (name : TagName.t) (value : string)
      (negate : bool) (s : S) (log : list Call) :
  encode_op (recording e) op name value negate (s, log)
  = let (enc_name, s1) := encode_name e name s in
    let (enc_value, s2) := encode_value e value s1 in
    let (clause, s3) := encode_op_clause e op enc_name enc_value negate s2 in
    (Ok (Some clause),
     (s3, log ++ [CallName name; CallValue value;
                  CallOpClause op enc_name enc_value negate])%list).
Proof.
  unfold encode_op.
  cbn [recording encode_name encode_value encode_op_clause].
  rewrite bind_call_logged. destruct (encode_name e name s) as [enc_name s1].
  rewrite bind_call_logged. destruct (encode_value e value s1) as [enc_value s2].
  rewrite bind_call_logged.
  destruct (encode_op_clause e op enc_name enc_value negate s2) as [clause s3].
  unfold ret. rewrite <- !app_assoc. reflexivity.
Qed.

Lemma hooks_app (l l' : list Call) : hooks (l ++ l') = (hooks l ++ hooks l')%list.
Proof.
  apply filter_app.
Qed.

Lemma hooks_values (values : list string) :
  hooks (map CallValue values) = map CallValue values.
Proof.
  induction values as [|v values IH]; cbn; [reflexivity|].
  unfold hooks in IH. rewrite IH. reflexivity.
Qed.

Lemma hooks_per_name (S : Type) (e : TagQueryEncoder.t S) (names : list TagName.t)
      (negate : bool) (s : S) :
  hooks (snd (per_name e names negate s)) = map CallName names.
Proof.
  revert s. induction names as [|name names IH]; intros s; cbn [per_name map].
  - reflexivity.
  - destruct (encode_name e name s) as [enc_name s1].
    destruct (encode_exist_clause e enc_name negate s1) as [clause s2].
    specialize (IH s2).
    destruct (per_name e names negate s2) as [[clauses s3] calls].
    cbn in *. unfold hooks in IH. rewrite IH. reflexivity.
Qed.

Lemma for_each_hooks (S : Type) (e : TagQueryEncoder.t S) (negate : bool)
      (qs : list TagQuery.t) :
  Forall (fun q => built q ->
            forall negate s log,
            exists r s' log',
              encode_query (recording e) q negate (s, log) = (Ok r, (s', log'))
              /\ hooks log' = (hooks log ++ hook_calls q)%list) qs ->
  Forall built qs ->
  forall s log,
  exists rs s' log',
    for_each (fun q => encode_query (recording e) q negate) qs (s, log)
    = (Ok rs, (s', log'))
    /\ hooks log' = (hooks log ++ flat_map hook_calls qs)%list.
Proof.
  induction 1 as [|q qs Hq _ IH]; intros Hb s log; cbn [for_each flat_map].
  - unfold ret. exists [], s, log. rewrite app_nil_r. auto.
  - inversion Hb as [|? ? Hbq Hbqs]; subst.
    destruct (Hq Hbq negate s log) as [r [s1 [log1 [H1 Hh1]]]].
    erewrite bind_Ok by exact H1.
    destruct (IH Hbqs s1 log1) as [rs [s2 [log2 [H2 Hh2]]]].
    erewrite bind_Ok by exact H2. unfold ret.
    exists (r :: rs), s2, log2. split; [reflexivity|].
    rewrite Hh2, Hh1, app_assoc. reflexivity.
Qed.

Lemma encode_query_hooks (S : Type) (e : TagQueryEncoder.t S) (q : TagQuery.t) :
  built q ->
  forall negate s log,
  exists r s' log',
    encode_query (recording e) q negate (s, log) = (Ok r, (s', log'))
    /\ hooks log' = (hooks log ++ hook_calls q)%list.
Proof.
  induction q as [v n x|v n xs|v ns|v qs IH|v q IH] using tagquery_ind;
    intros Hb negate s log;
    inversion Hb as [| | | | | | | | |? Hqs|? Hqs|? Hq]; subst.
  1-7: match goal with
       | |- context [encode_query (recording ?e') (TagQuery.mk ?v (TagQuery.PairData ?a ?b)) ?ng (?s0, _)] =>
           first [ change (encode_query (recording e') (TagQuery.mk v (TagQuery.PairData a b)) ng)
                     with (encode_op (recording e') CompareOp.Eq a b ng)
                 | change (encode_query (recording e') (TagQuery.mk v (TagQuery.PairData a b)) ng)
                     with (encode_op (recording e') CompareOp.Neq a b ng)
                 | change (encode_query (recording e') (TagQuery.mk v (TagQuery.PairData a b)) ng)
                     with (encode_op (recording e') CompareOp.Gt a b ng)
                 | change (encode_query (recording e') (TagQuery.mk v (TagQuery.PairData a b)) ng)
                     with (encode_op (recording e') CompareOp.Gte a b ng)
                 | change (encode_query (recording e') (TagQuery.mk v (TagQuery.PairData a b)) ng)
                     with (encode_op (recording e') CompareOp.Lt a b ng)
                 | change (encode_query (recording e') (TagQuery.mk v (TagQuery.PairData a b)) ng)
                     with (encode_op (recording e') CompareOp.Lte a b ng)
                 | change (encode_query (recording e') (TagQuery.mk v (TagQuery.PairData a b)) ng)
                     with (encode_op (recording e') CompareOp.Like a b ng) ];
           rewrite encode_op_recording;
           destruct (encode_name e' a s0) as [enc_name s1];
           destruct (encode_value e' b s1) as [enc_value s2];
           destruct (encode_op_clause e' _ enc_name enc_value ng s2) as [clause s3];
           do 3 eexists; (split; [reflexivity|]); rewrite hooks_app; reflexivity
       end.
  - change (encode_query (recording e) (TagQuery.mk "In" (TagQuery.PairListData n xs)) negate)
      with (encode_in (recording e) n xs negate).
    rewrite encode_in_recording.
    destruct (encode_name e n s) as [enc_name s1].
    pose proof (proj1 (per_value_calls e xs s1)) as Hcalls.
    destruct (per_value e xs s1) as [[enc_values s2] calls].
    cbn in Hcalls. subst calls.
    destruct (encode_in_clause e enc_name enc_values negate s2) as [clause s3].
    do 3 eexists. split; [reflexivity|].
    rewrite hooks_app. cbn [hook_calls TagQuery.In].
    change (CallName n :: map CallValue xs ++ [CallInClause enc_name enc_values negate])%list
      with ([CallName n] ++ map CallValue xs ++ [CallInClause enc_name enc_values negate])%list.
    rewrite !hooks_app, hooks_values. cbn. rewrite app_nil_r. reflexivity.
  - destruct ns as [|n1 [|n2 ns]].
    + do 3 eexists. split; [reflexivity|]. cbn. rewrite app_nil_r. reflexivity.
    + change (encode_query (recording e) (TagQuery.mk "Exist" (TagQuery.NamesData [n1])) negate)
        with (encode_exist_single (recording e) n1 negate).
      rewrite encode_exist_single_recording.
      destruct (encode_name e n1 s) as [enc_name s1].
      destruct (encode_exist_clause e enc_name negate s1) as [clause s2].
      do 3 eexists. split; [reflexivity|]. rewrite hooks_app. reflexivity.
    + change (TagQuery.mk "Exist" (TagQuery.NamesData (n1 :: n2 :: ns))) with (TagQuery.Exist (n1 :: n2 :: ns)).
      rewrite encode_exist_many by (cbn; lia). unfold exist_outcome.
      pose proof (hooks_per_name e (n1 :: n2 :: ns) negate s) as Hcalls.
      destruct (per_name e (n1 :: n2 :: ns) negate s) as [[clauses s1] calls].
      cbn [snd] in Hcalls.
      destruct (encode_conj_clause e ConjunctionOp.And (truthy_clauses clauses) s1)
        as [clause s2].
      do 3 eexists. split; [reflexivity|].
      rewrite !hooks_app, Hcalls. cbn [hook_calls TagQuery.Exist].
      cbn. rewrite app_nil_r. reflexivity.
  - destruct (@for_each_hooks S e negate qs IH Hqs s log) as [rs [s1 [log1 [H1 Hh1]]]].
    change (TagQuery.mk "And" (TagQuery.ListData qs)) with (conjunction ConjunctionOp.And qs).
    erewrite encode_conj_recording by exact H1.
    destruct (encode_conj_clause e (final_op ConjunctionOp.And negate) (drop_none rs) s1)
      as [clause s2].
    do 3 eexists. split; [reflexivity|].
    rewrite hooks_app, Hh1. cbn. rewrite app_nil_r. reflexivity.
  - destruct (@for_each_hooks S e negate qs IH Hqs s log) as [rs [s1 [log1 [H1 Hh1]]]].
    change (TagQuery.mk "Or" (TagQuery.ListData qs)) with (conjunction ConjunctionOp.Or qs).
    erewrite encode_conj_recording by exact H1.
    destruct (encode_conj_clause e (final_op ConjunctionOp.Or negate) (drop_none rs) s1)
      as [clause s2].
    do 3 eexists. split; [reflexivity|].
    rewrite hooks_app, Hh1. cbn. rewrite app_nil_r. reflexivity.
  - change (TagQuery.mk "Not" (TagQuery.QueryData q)) with (TagQuery.Not q).
    rewrite encode_query_Not. apply IH. exact Hq.
Qed.

(** X5: on a tree built with the factories, whatever [negate] is, the calls
    of [encode_name] and [encode_value] are exactly the names and values of
    the tree, leaf by leaf from left to right, the name of a leaf before its
    values: each is encoded once, none is skipped and none is encoded out
    of turn. *)
Theorem hooks_follow_the_tree (S : Type) (e : TagQueryEncoder.t S) (q : TagQuery.t)
        (negate : bool) (s : S) (log : list Call) :
  built q ->
  exists r s' log',
    encode_query (recording e) q negate (s, log) = (Ok r, (s', log'))
    /\ hooks log' = (hooks log ++ hook_calls q)%list.
Proof.
  intros Hb. apply encode_query_hooks. exact Hb.
Qed.

Lemma hooks_follow_the_tree_witness :
  exists r s' log',
    encode_query (recording TestEncoder.enc)
      (TagQuery.Not (TagQuery.Or [TagQuery.In (TagName.mk "a") ["1"; "2"];
                                  TagQuery.Exist [TagName.mk "b"; TagName.mk "c"]]))
      false (tt, [])
    = (Ok r, (s', log'))
    /\ hooks log'
       = [CallName (TagName.mk "a"); CallValue "1"; CallValue "2";
          CallName (TagName.mk "b"); CallName (TagName.mk "c")].
Proof.
  apply (@hooks_follow_the_tree unit TestEncoder.enc
           (TagQuery.Not (TagQuery.Or [TagQuery.In (TagName.mk "a") ["1"; "2"];
                                       TagQuery.Exist [TagName.mk "b"; TagName.mk "c"]]))
           false tt []).
  repeat constructor.
Defined.

(** ** Null clauses *)





(** ** The adapter as a whole *)

Lemma Forall2_built (qs : list Query.t) (tqs : list TagQuery.t) :
  Forall (fun q => forall tq, query_to_tagquery q = Ok tq -> built tq) qs ->
  Forall2 (fun q tq => query_to_tagquery q = Ok tq) qs tqs ->
  Forall built tqs.
Proof.
  intros IH H. induction H as [|q tq qs tqs Hq _ IHqs]; constructor;
    inversion IH; subst; auto.
Qed.

Lemma adapter_built (q : Query.t) :
  forall tq, query_to_tagquery q = Ok tq -> built tq.
Proof.
  induction q as [sqs IH|sqs IH|sq IH| | | | | | | | | |] using query_ind;
    intros tq H; cbn in H;
    try (injection H as <-; constructor; fail);
    try discriminate.
  - destruct (comprehension query_to_tagquery sqs) as [tqs|] eqn:Hc; [|discriminate].
    injection H as <-. constructor.
    apply (Forall2_built IH). apply comprehension_Ok. exact Hc.
  - destruct (comprehension query_to_tagquery sqs) as [tqs|] eqn:Hc; [|discriminate].
    injection H as <-. constructor.
    apply (Forall2_built IH). apply comprehension_Ok. exact Hc.
  - destruct (query_to_tagquery sq) as [tq'|]; [|discriminate].
    injection H as <-. constructor. auto.
Qed.

(** X7: whatever the adapter returns is a tree built with the factories;
    hence a converted legacy query always serializes with [to_wql_dict] and
    is always encoded by [encode_query], with either [negate] and any
    encoder, without the unknown-variant fault or any other. *)
Theorem adapter_output_is_encodable (q : Query.t) (tq : TagQuery.t) :
  query_to_tagquery q = Ok tq ->
  built tq
  /\ (exists d, TagQuery.to_wql_dict tq = Ok d)
  /\ (forall (S : Type) (e : TagQueryEncoder.t S) negate s,
         exists r s', encode_query e tq negate s = (Ok r, s')).
Proof.
  intros H. pose proof (adapter_built q H) as Hb. split; [exact Hb|split].
  - apply to_wql_dict_built. exact Hb.
  - intros. apply encode_query_built. exact Hb.
Qed.

Lemma adapter_output_is_encodable_witness :
  built (TagQuery.Not (TagQuery.And [TagQuery.Like (TagName.mk "a") "x%"; TagQuery.Exist []]))
  /\ (exists d,
         TagQuery.to_wql_dict
           (TagQuery.Not (TagQuery.And [TagQuery.Like (TagName.mk "a") "x%";
                                        TagQuery.Exist []])) = Ok d)
  /\ (forall (S : Type) (e : TagQueryEncoder.t S) negate s,
         exists r s',
           encode_query e
             (TagQuery.Not (TagQuery.And [TagQuery.Like (TagName.mk "a") "x%";
                                          TagQuery.Exist []])) negate s = (Ok r, s')).
Proof.
  apply (@adapter_output_is_encodable
           (Query.NotQuery (Query.AndQuery [Query.LikeQuery "~a" "x%"; Query.ExistQuery []]))).
  reflexivity.
Defined.

Lemma comprehension_first_other (sqs : list Query.t) :
  Forall (fun q =>
            match first_other q with
            | None => exists tq, query_to_tagquery q = Ok tq
            | Some type_name =>
                query_to_tagquery q = Raise (ValueError ("Unknown query type: " ++ type_name))
            end) sqs ->
  match (fix first_of (l : list Query.t) : option string :=
           match l with
           | [] => None
           | x :: l' =>
               match first_other x with
               | Some type_name => Some type_name
               | None => first_of l'
               end
           end) sqs with
  | None => exists tqs, comprehension query_to_tagquery sqs = Ok tqs
  | Some type_name =>
      comprehension query_to_tagquery sqs
      = Raise (ValueError ("Unknown query type: " ++ type_name))
  end.
Proof.
  induction 1 as [|q sqs Hq _ IH]; cbn [comprehension].
  - eauto.
  - fold (comprehension query_to_tagquery).
    destruct (first_other q) as [type_name|].
    + rewrite Hq. reflexivity.
    + destruct Hq as [tq ->].
      match type of IH with
      | match ?o with _ => _ end => destruct o as [type_name|]
      end.
      * rewrite IH. reflexivity.
      * destruct IH as [tqs ->]. eauto.
Qed.

Lemma adapter_first_other (q : Query.t) :
  match first_other q with
  | None => exists tq, query_to_tagquery q = Ok tq
  | Some type_name =>
      query_to_tagquery q = Raise (ValueError ("Unknown query type: " ++ type_name))
  end.
Proof.
  induction q as [sqs IH|sqs IH|sq IH| | | | | | | | | |] using query_ind;
    try (cbn; eauto; fail).
  - pose proof (comprehension_first_other IH) as H.
    cbn [first_other query_to_tagquery].
    match type of H with
    | match ?o with _ => _ end => destruct o as [type_name|]
    end.
    + rewrite H. reflexivity.
    + destruct H as [tqs ->]. eauto.
  - pose proof (comprehension_first_other IH) as H.
    cbn [first_other query_to_tagquery].
    match type of H with
    | match ?o with _ => _ end => destruct o as [type_name|]
    end.
    + rewrite H. reflexivity.
    + destruct H as [tqs ->]. eauto.
  - cbn [first_other query_to_tagquery].
    destruct (first_other sq) as [type_name|].
    + rewrite IH. reflexivity.
    + destruct IH as [tq ->]. eauto.
Qed.

(** X8: the adapter fails exactly on the legacy trees that hold a node of an
    unmapped class, at any depth; it then raises the [ValueError] that names
    the class of the first such node from left to right, and on every other
    legacy tree it returns a tree. *)
Theorem adapter_fails_on_first_unmapped_node (q : Query.t) :
  (first_other q = None -> exists tq, query_to_tagquery q = Ok tq)
  /\ (forall type_name,
         first_other q = Some type_name ->
         query_to_tagquery q = Raise (ValueError ("Unknown query type: " ++ type_name))).
Proof.
  pose proof (adapter_first_other q) as H.
  destruct (first_other q) as [t1|]; split; intros; try discriminate; auto.
  congruence.
Qed.

Lemma adapter_fails_on_first_unmapped_node_witness :
  (exists tq,
      query_to_tagquery (Query.OrQuery [Query.EqQuery "~a" "1"; Query.ExistQuery []]) = Ok tq)
  /\ query_to_tagquery
       (Query.AndQuery [Query.EqQuery "a" "1";
                        Query.NotQuery (Query.Other "<class 'Between'>");
                        Query.Other "<class 'int'>"])
     = Raise (ValueError "Unknown query type: <class 'Between'>").
Proof.
  split.
  - apply (proj1 (adapter_fails_on_first_unmapped_node
                    (Query.OrQuery [Query.EqQuery "~a" "1"; Query.ExistQuery []]))).
    reflexivity.
  - apply (proj2 (adapter_fails_on_first_unmapped_node
                    (Query.AndQuery [Query.EqQuery "a" "1";
                                     Query.NotQuery (Query.Other "<class 'Between'>");
                                     Query.Other "<class 'int'>"]))).
    reflexivity.
Defined.

Lemma lstrip_markers (n : nat) (key : string) :
  lstrip (markers n ++ key) "~" = lstrip key "~".
Proof.
  induction n as [|n IH]; cbn; auto.
Qed.

Lemma comprehension_map_ext (A B : Type) (f : A -> result B) (g : A -> A) (l : list A) :
  Forall (fun x => f (g x) = f x) l ->
  comprehension f (map g l) = comprehension f l.
Proof.
  induction 1 as [|x l Hx _ IH]; cbn; [reflexivity|].
  fold (comprehension f). rewrite Hx, IH. reflexivity.
Qed.

(** X9: the adapter does not see how many markers lead a key: a legacy tree
    and the same tree with [n] more ['~'] in front of every key are mapped
    to the same tree, or fail alike.  Keys that differ in their leading
    markers only are thus merged. *)
Theorem adapter_merges_marked_keys (n : nat) (q : Query.t) :
  query_to_tagquery (mark n q) = query_to_tagquery q.
Proof.
  induction q as [sqs IH|sqs IH|sq IH| | | | | | | | |keys|] using query_ind;
    cbn [mark query_to_tagquery];
    rewrite ?lstrip_markers; try reflexivity.
  - rewrite (comprehension_map_ext _ _ IH). reflexivity.
  - rewrite (comprehension_map_ext _ _ IH). reflexivity.
  - rewrite IH. reflexivity.
  - rewrite map_map. do 2 f_equal. apply map_ext. intros key.
    rewrite lstrip_markers. reflexivity.
Qed.





(** ** The shape of the canonical mapping *)

Lemma comprehension_single_keyed (qs : list TagQuery.t) (ds : list PyVal) :
  Forall (fun q => forall d, TagQuery.to_wql_dict q = Ok d -> single_keyed d = true) qs ->
  comprehension TagQuery.to_wql_dict qs = Ok ds ->
  forallb single_keyed ds = true.
Proof.
  intros IH H. apply comprehension_Ok in H.
  induction H as [|q d qs ds Hq _ IHqs]; [reflexivity|].
  inversion IH as [|? ? Hq' Hqs']; subst. cbn [forallb].
  rewrite (Hq' d Hq), IHqs; auto.
Qed.

Lemma single_keyed_strings (A : Type) (f : A -> string) (l : list A) :
  forallb single_keyed (map (fun x => PStr (f x)) l) = true.
Proof.
  induction l; cbn; auto.
Qed.

Lemma to_wql_dict_single_keyed (q : TagQuery.t) :
  forall d, TagQuery.to_wql_dict q = Ok d -> single_keyed d = true.
Proof.
  induction q as [v n x|v n xs|v ns|v qs IH|v q IH] using tagquery_ind; intros d H;
    (destruct (known v) eqn:Hk;
     [|rewrite to_wql_dict_unknown in H by assumption; discriminate]);
    apply known_true in Hk;
    repeat (destruct Hk as [->|Hk]); try subst v;
    try discriminate H;
    try (cbn in H; injection H as <-; cbn;
         rewrite ?(single_keyed_strings (fun s : string => s)),
                 ?(single_keyed_strings TagName.to_string);
         reflexivity).
  - rewrite (@to_wql_dict_conj "$and") in H by auto.
    destruct qs as [|q0 qs]; cbn [TagQuery.is_empty] in H.
    + injection H as <-. reflexivity.
    + destruct (comprehension TagQuery.to_wql_dict (q0 :: qs)) as [ds|] eqn:Hds;
        [|discriminate].
      injection H as <-. cbn. rewrite (comprehension_single_keyed IH Hds). reflexivity.
  - rewrite (@to_wql_dict_conj "$or") in H by auto.
    destruct qs as [|q0 qs]; cbn [TagQuery.is_empty] in H.
    + injection H as <-. reflexivity.
    + destruct (comprehension TagQuery.to_wql_dict (q0 :: qs)) as [ds|] eqn:Hds;
        [|discriminate].
      injection H as <-. cbn. rewrite (comprehension_single_keyed IH Hds). reflexivity.
  - rewrite to_wql_dict_Not in H.
    destruct (TagQuery.to_wql_dict q) as [d'|] eqn:Hd; [|discriminate].
    injection H as <-. cbn. rewrite (IH d' eq_refl). reflexivity.
Qed.

(** X11: whatever [to_wql_dict] returns, for any tree at all, is a mapping in
    which every dict, at any depth, has one key at most; a tag name can
    therefore never sit beside an operator token or another name in one
    dict, and the order of keys plays no part in comparing two results. *)
Theorem to_wql_dict_has_single_keys (q : TagQuery.t) (d : PyVal) :
  TagQuery.to_wql_dict q = Ok d ->
  single_keyed d = true /\ exists items, d = PDict items /\ length items <= 1.
Proof.
  intros H. pose proof (to_wql_dict_single_keyed q H) as Hs. split; [exact Hs|].
  assert (exists items, d = PDict items) as [items ->].
  { destruct q as [v [n x|n xs|ns|qs|q]];
      (destruct (known v) eqn:Hk;
       [|rewrite to_wql_dict_unknown in H by assumption; discriminate]);
      apply known_true in Hk;
      repeat (destruct Hk as [->|Hk]); try subst v;
      try discriminate H;
      try (cbn in H; injection H as <-; unfold TagQuery.op_dict; eauto; fail).
    - rewrite (@to_wql_dict_conj "$and") in H by auto.
      destruct (TagQuery.is_empty qs);
        [|destruct (comprehension TagQuery.to_wql_dict qs); [|discriminate]];
        injection H as <-; eauto.
    - rewrite (@to_wql_dict_conj "$or") in H by auto.
      destruct (TagQuery.is_empty qs);
        [|destruct (comprehension TagQuery.to_wql_dict qs); [|discriminate]];
        injection H as <-; eauto.
    - rewrite to_wql_dict_Not in H.
      destruct (TagQuery.to_wql_dict q); [|discriminate].
      injection H as <-; eauto. }
  exists items. split; [reflexivity|].
  cbn in Hs. apply andb_true_iff in Hs as [Hlen _]. apply Nat.leb_le. exact Hlen.
Qed.

Lemma to_wql_dict_has_single_keys_witness :
  single_keyed (PDict [("$or", PList [PDict [("a", PDict [("$in", PList [PStr "1"])])];
                                      PDict []])])
  = true
  /\ exists items,
      PDict [("$or", PList [PDict [("a", PDict [("$in", PList [PStr "1"])])]; PDict []])]
      = PDict items
      /\ length items <= 1.
Proof.
  apply (@to_wql_dict_has_single_keys
           (TagQuery.Or [TagQuery.In (TagName.mk "a") ["1"]; TagQuery.And []])).
  reflexivity.
Defined.

(** ** Existence under negation *)

Lemma per_name_truthy (S : Type) (e : TagQueryEncoder.t S)
      (names : list TagName.t) (negate : bool) :
  (forall enc_name ng st, fst (encode_exist_clause e enc_name ng st) <> EmptyString) ->
  forall s, truthy_clauses (fst (fst (per_name e names negate s)))
            = fst (fst (per_name e names negate s)).
Proof.
  intros Hfull. induction names as [|name names IH]; intros s; cbn [per_name].
  - reflexivity.
  - destruct (encode_name e name s) as [enc_name s1].
    specialize (Hfull enc_name negate s1).
    destruct (encode_exist_clause e enc_name negate s1) as [clause s2].
    specialize (IH s2).
    destruct (per_name e names negate s2) as [[clauses s3] calls].
    cbn [fst] in *. destruct clause as [|a rest]; [congruence|].
    change (String a rest :: truthy_clauses clauses = String a rest :: clauses).
    f_equal. exact IH.
Qed.

(** X12: with an encoder whose existence clause is never empty, an [Exist]
    on two names or more and the [And] of the one-name [Exist]s of the same
    names make the same per-name calls and hand the same clauses to
    [encode_conj_clause]; but the [Exist] always asks for
    [ConjunctionOp.And], while the [And] asks for [Or] once [negate] is set.
    The two encodings are equal with [negate = false] and differ with
    [negate = true]: a negated [Exist] on several names is the conjunction
    of the negated existence clauses, not their disjunction. *)
Theorem exist_is_conjunctive_under_negation (S : Type) (e : TagQueryEncoder.t S)
        (names : list TagName.t) (negate : bool) (s : S) (log : list Call) :
  2 <= length names ->
  (forall enc_name ng st, fst (encode_exist_clause e enc_name ng st) <> EmptyString) ->
  encode_query (recording e) (TagQuery.Exist names) negate (s, log)
  = names_outcome e ConjunctionOp.And names negate s log
  /\ encode_query (recording e)
                  (TagQuery.And (map (fun name => TagQuery.Exist [name]) names))
                  negate (s, log)
     = names_outcome e (final_op ConjunctionOp.And negate) names negate s log
  /\ (negate = true ->
      encode_query (recording e) (TagQuery.Exist names) negate (s, log)
      <> encode_query (recording e)
                      (TagQuery.And (map (fun name => TagQuery.Exist [name]) names))
                      negate (s, log)).
Proof.
  intros Hlen Hfull.
  assert (encode_query (recording e) (TagQuery.Exist names) negate (s, log)
          = names_outcome e ConjunctionOp.And names negate s log) as H1.
  { rewrite encode_exist_many by exact Hlen. unfold exist_outcome, names_outcome.
    pose proof (per_name_truthy e names negate Hfull s) as Ht.
    destruct (per_name e names negate s) as [[clauses s1] calls].
    cbn [fst] in Ht. rewrite Ht. reflexivity. }
  assert (encode_query (recording e)
                       (TagQuery.And (map (fun name => TagQuery.Exist [name]) names))
                       negate (s, log)
          = names_outcome e (final_op ConjunctionOp.And negate) names negate s log) as H2.
  { pose proof (for_each_single_recording e names negate s log) as Hrun.
    unfold names_outcome.
    destruct (per_name e names negate s) as [[clauses s1] calls].
    change (TagQuery.And (map (fun name => TagQuery.Exist [name]) names))
      with (conjunction ConjunctionOp.And (map (fun name => TagQuery.Exist [name]) names)).
    erewrite encode_conj_recording by (rewrite for_each_map; exact Hrun).
    rewrite drop_none_Some.
    destruct (encode_conj_clause e (final_op ConjunctionOp.And negate) clauses s1).
    rewrite <- app_assoc. reflexivity. }
  split; [exact H1|split; [exact H2|]].
  intros ->. rewrite H1, H2. unfold names_outcome.
  destruct (per_name e names true s) as [[clauses s1] calls].
  destruct (encode_conj_clause e ConjunctionOp.And clauses s1) as [c1 t1].
  destruct (encode_conj_clause e (final_op ConjunctionOp.And true) clauses s1) as [c2 t2].
  intros H. injection H as _ _ H.
  apply app_inv_head in H. apply app_inv_head in H. discriminate H.
Qed.

Lemma exist_is_conjunctive_under_negation_witness :
  encode_query (recording TestEncoder.enc)
               (TagQuery.Exist [TagName.mk "a"; TagName.mk "b"]) true (tt, [])
  = (Ok (Some "(NOT(a IS NOT NULL) AND NOT(b IS NOT NULL))"),
     (tt, [CallName (TagName.mk "a"); CallExistClause (b "a") true;
           CallName (TagName.mk "b"); CallExistClause (b "b") true;
           CallConjClause ConjunctionOp.And
                          ["NOT(a IS NOT NULL)"; "NOT(b IS NOT NULL)"]]))
  /\ encode_query (recording TestEncoder.enc)
                  (TagQuery.And [TagQuery.Exist [TagName.mk "a"];
                                 TagQuery.Exist [TagName.mk "b"]]) true (tt, [])
     = (Ok (Some "(NOT(a IS NOT NULL) OR NOT(b IS NOT NULL))"),
        (tt, [CallName (TagName.mk "a"); CallExistClause (b "a") true;
              CallName (TagName.mk "b"); CallExistClause (b "b") true;
              CallConjClause ConjunctionOp.Or
                             ["NOT(a IS NOT NULL)"; "NOT(b IS NOT NULL)"]])).
Proof.
  destruct (@exist_is_conjunctive_under_negation
              unit TestEncoder.enc [TagName.mk "a"; TagName.mk "b"] true tt [])
    as [H1 [H2 _]].
  - cbn. lia.
  - intros enc_name ng st. cbn. destruct ng; [discriminate|].
    destruct (TestEncoder.text enc_name); discriminate.
  - split; [rewrite H1 | cbn [map] in H2; rewrite H2]; reflexivity.
Defined.

(** ** The steps of a traversal *)

Lemma steps_per_name (S : Type) (e : TagQueryEncoder.t S) (names : list TagName.t)
      (negate : bool) (s : S) :
  map step_of (snd (per_name e names negate s))
  = flat_map (fun name => [StepName name; StepExistClause negate]) names.
Proof.
  revert s. induction names as [|name names IH]; intros s; cbn [per_name flat_map].
  - reflexivity.
  - destruct (encode_name e name s) as [enc_name s1].
    destruct (encode_exist_clause e enc_name negate s1) as [clause s2].
    specialize (IH s2).
    destruct (per_name e names negate s2) as [[clauses s3] calls].
    cbn in *. rewrite IH. reflexivity.
Qed.

Lemma for_each_steps (S : Type) (e : TagQueryEncoder.t S) (negate : bool)
      (qs : list TagQuery.t) :
  Forall (fun q => built q ->
            forall negate s log,
            exists r s' calls,
              encode_query (recording e) q negate (s, log)
              = (Ok r, (s', (log ++ calls)%list))
              /\ map step_of calls = steps q negate) qs ->
  Forall built qs ->
  forall s log,
  exists rs s' calls,
    for_each (fun q => encode_query (recording e) q negate) qs (s, log)
    = (Ok rs, (s', (log ++ calls)%list))
    /\ map step_of calls = flat_map (fun q => steps q negate) qs.
Proof.
  induction 1 as [|q qs Hq _ IH]; intros Hb s log; cbn [for_each flat_map].
  - unfold ret. exists [], s, []. rewrite app_nil_r. auto.
  - inversion Hb as [|? ? Hbq Hbqs]; subst.
    destruct (Hq Hbq negate s log) as [r [s1 [calls1 [H1 Hs1]]]].
    erewrite bind_Ok by exact H1.
    destruct (IH Hbqs s1 (log ++ calls1)%list) as [rs [s2 [calls2 [H2 Hs2]]]].
    erewrite bind_Ok by exact H2. unfold ret.
    exists (r :: rs), s2, (calls1 ++ calls2)%list.
    rewrite app_assoc, map_app, Hs1, Hs2. auto.
Qed.

Lemma encode_query_steps (S : Type) (e : TagQueryEncoder.t S) (q : TagQuery.t) :
  built q ->
  forall negate s log,
  exists r s' calls,
    encode_query (recording e) q negate (s, log) = (Ok r, (s', (log ++ calls)%list))
    /\ map step_of calls = steps q negate.
Proof.
  induction q as [v n x|v n xs|v ns|v qs IH|v q IH] using tagquery_ind;
    intros Hb negate s log;
    inversion Hb as [| | | | | | | | |? Hqs|? Hqs|? Hq]; subst.
  1-7: match goal with
       | |- context [encode_query (recording ?e') (TagQuery.mk ?v (TagQuery.PairData ?a ?b)) ?ng (?s0, _)] =>
           first [ change (encode_query (recording e') (TagQuery.mk v (TagQuery.PairData a b)) ng)
                     with (encode_op (recording e') CompareOp.Eq a b ng)
                 | change (encode_query (recording e') (TagQuery.mk v (TagQuery.PairData a b)) ng)
                     with (encode_op (recording e') CompareOp.Neq a b ng)
                 | change (encode_query (recording e') (TagQuery.mk v (TagQuery.PairData a b)) ng)
                     with (encode_op (recording e') CompareOp.Gt a b ng)
                 | change (encode_query (recording e') (TagQuery.mk v (TagQuery.PairData a b)) ng)
                     with (encode_op (recording e') CompareOp.Gte a b ng)
                 | change (encode_query (recording e') (TagQuery.mk v (TagQuery.PairData a b)) ng)
                     with (encode_op (recording e') CompareOp.Lt a b ng)
                 | change (encode_query (recording e') (TagQuery.mk v (TagQuery.PairData a b)) ng)
                     with (encode_op (recording e') CompareOp.Lte a b ng)
                 | change (encode_query (recording e') (TagQuery.mk v (TagQuery.PairData a b)) ng)
                     with (encode_op (recording e') CompareOp.Like a b ng) ];
           rewrite encode_op_recording;
           destruct (encode_name e' a s0) as [enc_name s1];
           destruct (encode_value e' b s1) as [enc_value s2];
           destruct (encode_op_clause e' _ enc_name enc_value ng s2) as [clause s3];
           do 3 eexists; split; reflexivity
       end.
  - change (encode_query (recording e) (TagQuery.mk "In" (TagQuery.PairListData n xs)) negate)
      with (encode_in (recording e) n xs negate).
    rewrite encode_in_recording.
    destruct (encode_name e n s) as [enc_name s1].
    pose proof (proj1 (per_value_calls e xs s1)) as Hcalls.
    destruct (per_value e xs s1) as [[enc_values s2] calls].
    cbn in Hcalls. subst calls.
    destruct (encode_in_clause e enc_name enc_values negate s2) as [clause s3].
    do 3 eexists. split; [reflexivity|].
    cbn [map steps]. rewrite map_app, map_map. reflexivity.
  - destruct ns as [|n1 [|n2 ns]].
    + exists None, s, []. rewrite app_nil_r. split; reflexivity.
    + change (encode_query (recording e) (TagQuery.mk "Exist" (TagQuery.NamesData [n1])) negate)
        with (encode_exist_single (recording e) n1 negate).
      rewrite encode_exist_single_recording.
      destruct (encode_name e n1 s) as [enc_name s1].
      destruct (encode_exist_clause e enc_name negate s1) as [clause s2].
      do 3 eexists. split; reflexivity.
    + change (TagQuery.mk "Exist" (TagQuery.NamesData (n1 :: n2 :: ns)))
        with (TagQuery.Exist (n1 :: n2 :: ns)).
      rewrite encode_exist_many by (cbn; lia). unfold exist_outcome.
      pose proof (steps_per_name e (n1 :: n2 :: ns) negate s) as Hcalls.
      destruct (per_name e (n1 :: n2 :: ns) negate s) as [[clauses s1] calls].
      cbn [snd] in Hcalls.
      destruct (encode_conj_clause e ConjunctionOp.And (truthy_clauses clauses) s1)
        as [clause s2].
      do 3 eexists. split; [reflexivity|].
      rewrite map_app, Hcalls. reflexivity.
  - destruct (@for_each_steps S e negate qs IH Hqs s log) as [rs [s1 [calls [H1 Hs1]]]].
    change (TagQuery.mk "And" (TagQuery.ListData qs)) with (conjunction ConjunctionOp.And qs).
    erewrite encode_conj_recording by exact H1.
    destruct (encode_conj_clause e (final_op ConjunctionOp.And negate) (drop_none rs) s1)
      as [clause s2].
    rewrite <- app_assoc. do 3 eexists. split; [reflexivity|].
    rewrite map_app, Hs1. reflexivity.
  - destruct (@for_each_steps S e negate qs IH Hqs s log) as [rs [s1 [calls [H1 Hs1]]]].
    change (TagQuery.mk "Or" (TagQuery.ListData qs)) with (conjunction ConjunctionOp.Or qs).
    erewrite encode_conj_recording by exact H1.
    destruct (encode_conj_clause e (final_op ConjunctionOp.Or negate) (drop_none rs) s1)
      as [clause s2].
    rewrite <- app_assoc. do 3 eexists. split; [reflexivity|].
    rewrite map_app, Hs1. reflexivity.
  - change (TagQuery.mk "Not" (TagQuery.QueryData q)) with (TagQuery.Not q).
    rewrite encode_query_Not. apply IH. exact Hq.
Qed.

(** X13: on a tree built with the factories, the calls an encoder receives,
    taken without the encoded names and values and without the clauses, are
    fixed by the tree and [negate] alone, whatever the encoder returns and
    remembers: the traversal appends to the log, leaf after leaf, the name,
    the values and the clause call of the leaf with the polarity that the
    [Not]s above it give, and after the subqueries of an [And] or [Or] one
    conjunction call, with the operator of the node or, under negation, the
    other one; an [Exist] on several names ends with a conjunction call on
    [And] under either polarity. *)
Theorem traversal_steps_are_fixed_by_the_tree (S : Type) (e : TagQueryEncoder.t S)
        (q : TagQuery.t) (negate : bool) (s : S) (log : list Call) :
  built q ->
  exists r s' calls,
    encode_query (recording e) q negate (s, log) = (Ok r, (s', (log ++ calls)%list))
    /\ map step_of calls = steps q negate.
Proof.
  intros Hb. apply encode_query_steps. exact Hb.
Qed.

Lemma traversal_steps_are_fixed_by_the_tree_witness :
  exists r s' calls,
    encode_query (recording BlankExist.enc)
      (TagQuery.Not (TagQuery.And [TagQuery.Neq (TagName.mk "a") "1";
                                   TagQuery.Not (TagQuery.Exist [TagName.mk "b";
                                                                 TagName.mk "c"])]))
      false (tt, [])
    = (Ok r, (s', ([] ++ calls)%list))
    /\ map step_of calls
       = [StepName (TagName.mk "a"); StepValue "1"; StepOpClause CompareOp.Neq true;
          StepName (TagName.mk "b"); StepExistClause false;
          StepName (TagName.mk "c"); StepExistClause false;
          StepConjClause ConjunctionOp.And;
          StepConjClause ConjunctionOp.Or].
Proof.
  apply (@traversal_steps_are_fixed_by_the_tree unit BlankExist.enc
           (TagQuery.Not (TagQuery.And [TagQuery.Neq (TagName.mk "a") "1";
                                        TagQuery.Not (TagQuery.Exist [TagName.mk "b";
                                                                      TagName.mk "c"])]))
           false tt []).
  repeat constructor.
Defined.
